(** * terraform-filter-vars: the merge-and-emit pipeline of [main.go]

    A shallow embedding of [main], [showDiags], [exitWithDiags],
    [exitIfErrors] and [appendHCLDiags], and the properties of the
    filtered, merged and name-sorted output they produce.

    The program talks to four collaborators that are not part of it:
    tfconfig's module loader, the file system, hclwrite's parser and the
    output destination.  They are the [Variable]s of section [Program]; the
    program is modelled over every behaviour they may have. *)

From Stdlib Require Import ZArith Ascii DecimalString.
From stdpp Require Import gmap strings list fin_maps sorting.

Set Warnings "-clear-no-such-hyp".

Local Open Scope string_scope.
Local Open Scope list_scope.

(** ** Go strings *)

(** [strings.HasSuffix]: [len(s) >= len(suffix) && s[len(s)-len(suffix):] == suffix]. *)
Definition HasSuffix (s suffix : string) : bool :=
  (String.length suffix <=? String.length s)%nat &&
  String.eqb
    (String.substring (String.length s - String.length suffix) (String.length suffix) s)
    suffix.

(** The order of Go's [<] on strings, the one [sort.Strings] sorts by:
    bytewise lexicographic. *)
Definition string_le (a b : string) : Prop := String.leb a b = true.
Definition string_lt (a b : string) : Prop := String.ltb a b = true.

#[global] Instance string_le_dec : RelDecision string_le :=
  fun a b => decide (String.leb a b = true).
#[global] Instance string_lt_dec : RelDecision string_lt :=
  fun a b => decide (String.ltb a b = true).

(** [sort.Strings]: the slice in ascending order. *)
Definition sort_Strings (l : list string) : list string :=
  merge_sort string_le l.

(** [%d] of an [int]. *)
Definition fmt_d (n : Z) : string := NilZero.string_of_int (Z.to_int n).

(** ** The hclwrite token model *)

Module hclwrite.

(** [hclwrite.Token]: a token type, its bytes and the spaces before it. *)
Record Token := { Type_ : nat; Bytes : string; SpacesBefore : nat }.

Definition Tokens := list Token.

(** [hclwrite.Attribute], seen through the only operation [main] applies
    to it: the tokens it spans (lead comments, name, equals sign,
    expression, line comment, newline). *)
Record Attribute := { attrTokens : Tokens }.

(** Modelled from the spec: [attr.BuildTokens(to)] of hclwrite, which is
    not part of this repository, appends to [to] the token span of the
    attribute, as captured. *)
Definition BuildTokens (attr : Attribute) (to : Tokens) : Tokens :=
  to ++ attrTokens attr.

(** Modelled from the spec: [body.AppendUnstructuredTokens(ts)] of
    hclwrite, on a body seen as its token sequence, appends the span as it
    is. *)
Definition AppendUnstructuredTokens (body ts : Tokens) : Tokens :=
  body ++ ts.

(** [hclwrite.NewEmptyFile().Body()]. *)
Definition NewEmptyFile : Tokens := [].

(** What a token stands for, apart from the space before it. *)
Definition tokenContent (t : Token) : nat * string := (Type_ t, Bytes t).

Fixpoint spaces (n : nat) : string :=
  match n with
  | O => EmptyString
  | S n' => String " " (spaces n')
  end.

(** [Tokens.WriteTo] of hclwrite, which is not part of this repository:
    each token is written as the spaces before it, then its bytes. *)
Definition TokensBytes (ts : Tokens) : string :=
  foldr (fun t rest => spaces (SpacesBefore t) +:+ Bytes t +:+ rest)
    EmptyString ts.

(** Modelled from the spec: what [File.WriteTo] of hclwrite writes for a
    body.  The tokens go through the formatter of hclwrite, [format], and
    are then written; of the formatter the spec says that it leaves the
    content of the tokens byte for byte and normalizes the white space
    around them, so it is taken as it comes. *)
Definition FileBytes (format : Tokens -> Tokens) (body : Tokens) : string :=
  TokensBytes (format body).

End hclwrite.

(** ** Diagnostics *)

Module hcl.

(** [hcl.DiagSeverity]: [DiagInvalid] is the zero value. *)
Inductive DiagSeverity := DiagInvalid | DiagError | DiagWarning.

(** [hcl.Range], as far as [appendHCLDiags] reads it. *)
Record Range := { Filename : string; StartLine : Z }.

Record Diagnostic := {
  Severity : DiagSeverity;
  Summary : string;
  Detail : string;
  Subject : option Range
}.

Definition Diagnostics := list Diagnostic.

(** [Diagnostics.HasErrors]: some diagnostic has severity [DiagError]. *)
Definition HasErrors (diags : Diagnostics) : bool :=
  existsb
    (fun d => match Severity d with DiagError => true | _ => false end)
    diags.

End hcl.

Module tfconfig.

(** [tfconfig.DiagSeverity]; [DiagZero] is what [var severity] holds when
    no case of the switch in [appendHCLDiags] assigns it. *)
Inductive DiagSeverity := DiagError | DiagWarning | DiagZero.

Record SourcePos := { Filename : string; Line : Z }.

Record Diagnostic := {
  Severity : DiagSeverity;
  Summary : string;
  Detail : string;
  Pos : option SourcePos
}.

(** [tfconfig.Variable]: [main] only ranges over the names. *)
Record Variable_ := { Name : string }.

(** [tfconfig.Module], as far as [main] reads it. *)
Record Module_ := { Variables : gmap string Variable_ }.

End tfconfig.

Definition isError (d : tfconfig.Diagnostic) : bool :=
  match tfconfig.Severity d with tfconfig.DiagError => true | _ => false end.

Definition isWarning (d : tfconfig.Diagnostic) : bool :=
  match tfconfig.Severity d with tfconfig.DiagWarning => true | _ => false end.

(** The test both exit functions loop on: some diagnostic is an error. *)
Definition anyError (diags : list tfconfig.Diagnostic) : bool :=
  existsb isError diags.

(** One iteration of the loop of [showDiags]: the text of one [Fprintf]. *)
Definition showDiag (diag : tfconfig.Diagnostic) : string :=
  let prefixStr :=
    match tfconfig.Severity diag with
    | tfconfig.DiagError => "Error: "
    | tfconfig.DiagWarning => "Warning: "
    | tfconfig.DiagZero => ""
    end in
  let prefixStr :=
    match tfconfig.Pos diag with
    | Some pos =>
        prefixStr +:+ " (" +:+ tfconfig.Filename pos +:+ ":"
          +:+ fmt_d (tfconfig.Line pos) +:+ ") "
    | None => prefixStr
    end in
  prefixStr +:+ tfconfig.Summary diag +:+ "; " +:+ tfconfig.Detail diag.

(** [showDiags]: what the loop writes to standard error, in order. *)
Definition showDiags (diags : list tfconfig.Diagnostic) : string :=
  foldl (fun err diag => err +:+ showDiag diag) "" diags.

(** The number of line ends in a text. *)
Fixpoint lineEnds (s : string) : nat :=
  match s with
  | EmptyString => 0
  | String c s' => (if Ascii.eqb c "010" then 1 else 0) + lineEnds s'
  end.

(** What a call that may end the process leaves behind: the text written
    to standard error and the exit status. *)
Record Exit := { exitStderr : string; exitCode : nat }.

(** [exitWithDiags]: always ends the process. *)
Definition exitWithDiags (diags : list tfconfig.Diagnostic) : Exit :=
  {| exitStderr := showDiags diags;
     exitCode := if anyError diags then 1 else 0 |}.

(** [exitIfErrors]: ends the process when some diagnostic is an error and
    returns to the caller otherwise. *)
Definition exitIfErrors (diags : list tfconfig.Diagnostic) : option Exit :=
  if anyError diags
  then Some {| exitStderr := showDiags diags; exitCode := 1 |}
  else None.

(** The body of the loop of [appendHCLDiags]. *)
Definition convertHCLDiag (hclDiag : hcl.Diagnostic) : tfconfig.Diagnostic :=
  let severity :=
    match hcl.Severity hclDiag with
    | hcl.DiagError => tfconfig.DiagError
    | hcl.DiagWarning => tfconfig.DiagWarning
    | hcl.DiagInvalid => tfconfig.DiagZero
    end in
  let pos :=
    match hcl.Subject hclDiag with
    | Some subject =>
        Some {| tfconfig.Filename := hcl.Filename subject;
                tfconfig.Line := hcl.StartLine subject |}
    | None => None
    end in
  {| tfconfig.Severity := severity;
     tfconfig.Summary := hcl.Summary hclDiag;
     tfconfig.Detail := hcl.Detail hclDiag;
     tfconfig.Pos := pos |}.

Definition appendHCLDiags (diags : list tfconfig.Diagnostic)
    (hclDiags : hcl.Diagnostics) : list tfconfig.Diagnostic :=
  foldl (fun diags hclDiag => diags ++ [convertHCLDiag hclDiag]) diags hclDiags.


(** ** The command line *)

(** What [flag.Parse] leaves: the two flags and the positional arguments. *)
Record Cmd := { versionP : bool; outP : string; args : list string }.

Definition Version : string := "v0.0.0".
Definition Prerelease : string := "dev".

(** The line feed of the Go literals. *)
Definition LF : string := String "010"%char "".

Definition usage : string :=
  "Usage: terraform-filter-vars <module-dir> [tfvars-files...]" +:+ LF +:+ LF
  +:+ "Reads the given tfvars files and produces output in tfvars format containing only definitions for variables declared in the given module."
  +:+ LF +:+ LF.

(** ** The state of a run *)

(** What the loop over the file arguments carries from one file to the
    next: the diagnostics, the map [attrs], and the paths handed to
    [ioutil.ReadFile] so far. *)
Record LoopState := {
  diags : list tfconfig.Diagnostic;
  attrs : gmap string hclwrite.Attribute;
  reads : list string
}.

(** What a finished run has done: the text on the two standard streams,
    the exit status, the paths handed to [ioutil.ReadFile] and to
    [os.Create], and the destination and document handed to [WriteTo]. *)
Record Outcome := {
  stdout : string;
  stderr : string;
  status : nat;
  opened : list string;
  created : list string;
  wrote : option (string * hclwrite.Tokens)
}.

(** The two diagnostics [main] builds for a file argument. *)
Definition jsonDiag (varFilePath : string) : tfconfig.Diagnostic :=
  {| tfconfig.Severity := tfconfig.DiagError;
     tfconfig.Summary := "JSON tfvars not supported";
     tfconfig.Detail :=
       "Can't read " +:+ varFilePath
         +:+ ": only native syntax .tfvars files are supported.";
     tfconfig.Pos := None |}.

Definition readDiag (varFilePath err : string) : tfconfig.Diagnostic :=
  {| tfconfig.Severity := tfconfig.DiagError;
     tfconfig.Summary := "Failed to read input file";
     tfconfig.Detail := "Can't read " +:+ varFilePath +:+ ": " +:+ err +:+ ".";
     tfconfig.Pos := None |}.

(** And the two for the output. *)
Definition createDiag (out err : string) : tfconfig.Diagnostic :=
  {| tfconfig.Severity := tfconfig.DiagError;
     tfconfig.Summary := "Failed to open output file";
     tfconfig.Detail := "Can't create " +:+ out +:+ ": " +:+ err +:+ ".";
     tfconfig.Pos := None |}.

Definition writeDiag (out err : string) : tfconfig.Diagnostic :=
  {| tfconfig.Severity := tfconfig.DiagError;
     tfconfig.Summary := "Failed to write to output file";
     tfconfig.Detail := "Error writing to " +:+ out +:+ ": " +:+ err +:+ ".";
     tfconfig.Pos := None |}.

(** The loop [for name := range mod.Variables] over the names in the order
    [names] the range yields them. *)
Definition collectWanted (names : list string) : list string * gset string :=
  foldl
    (fun '(wantedVars, wantedVarsSet) name =>
       (wantedVars ++ [name], {[ name ]} ∪ wantedVarsSet))
    ([], ∅) names.

(** The loop [for name, attr := range varFile.Body().Attributes()] over the
    entries in the order [entries] the range yields them. *)
Definition mergeAttrs (wantedVarsSet : gset string)
    (attrs : gmap string hclwrite.Attribute)
    (entries : list (string * hclwrite.Attribute))
    : gmap string hclwrite.Attribute :=
  foldl
    (fun attrs '(name, attr) =>
       if decide (name ∈ wantedVarsSet) then <[ name := attr ]> attrs else attrs)
    attrs entries.

(** The loop [for _, name := range wantedVars] that fills the output body. *)
Definition emit (wantedVars : list string)
    (attrs : gmap string hclwrite.Attribute) : hclwrite.Tokens :=
  foldl
    (fun outBody name =>
       match attrs !! name with
       | Some attr =>
           hclwrite.AppendUnstructuredTokens outBody (hclwrite.BuildTokens attr [])
       | None => outBody
       end)
    hclwrite.NewEmptyFile wantedVars.

(** The iterations of the loop of [emit] that append: the name and its
    attribute. *)
Definition emitted (wantedVars : list string)
    (attrs : gmap string hclwrite.Attribute)
    : list (string * hclwrite.Attribute) :=
  omap (fun name => (fun attr => (name, attr)) <$> attrs !! name) wantedVars.

(** The token spans of a sequence of attributes, one after the other. *)
Definition spans (l : list (string * hclwrite.Attribute)) : hclwrite.Tokens :=
  mjoin ((fun na => hclwrite.attrTokens na.2) <$> l).

(** ** The attributes of a parsed file *)

Module SpecModel.

(** A parsed file as its top-level attribute definitions, in the order they
    appear in the source text. *)
Definition File := list (string * hclwrite.Attribute).

(** Modelled from the spec: hclwrite's [Body.Attributes], which is not part
    of this repository.  Of the definitions of one name in a file, the
    later one is the one exposed to the caller. *)
Definition Attributes (f : File) : gmap string hclwrite.Attribute :=
  foldl (fun m '(name, attr) => <[ name := attr ]> m) ∅ f.

End SpecModel.

(** ** Stand-ins for the collaborators, for running the program *)

Module Demo.

Definition tok (s : string) : hclwrite.Token :=
  {| hclwrite.Type_ := 0; hclwrite.Bytes := s; hclwrite.SpacesBefore := 0 |}.

(** The tokens of [name = val] and its line end. *)
Definition attr (name val : string) : hclwrite.Attribute :=
  {| hclwrite.attrTokens := [tok name; tok "="; tok val; tok LF] |}.

Definition variable (name : string) : string * tfconfig.Variable_ :=
  (name, {| tfconfig.Name := name |}).

Definition loadFailed : tfconfig.Diagnostic :=
  {| tfconfig.Severity := tfconfig.DiagError;
     tfconfig.Summary := "Failed to read module directory";
     tfconfig.Detail := "Module directory does not exist or cannot be read.";
     tfconfig.Pos := None |}.

(** The module of the README, which declares [foo], [bar] and [baz]. *)
Definition LoadModule (modDir : string)
    : tfconfig.Module_ * list tfconfig.Diagnostic :=
  if String.eqb modDir "module" then
    ({| tfconfig.Variables :=
          list_to_map [variable "foo"; variable "bar"; variable "baz"] |}, [])
  else ({| tfconfig.Variables := ∅ |}, [loadFailed]).

Definition ReadFile (path : string) : string + string :=
  if String.eqb path "a.tfvars" then inl "A"
  else if String.eqb path "b.tfvars" then inl "B"
  else if String.eqb path "w.tfvars" then inl "W"
  else if String.eqb path "dup.tfvars" then inl "D"
  else if String.eqb path "c.json" then inl "C"
  else inr "no such file or directory".

Definition deprecated (filename : string) : hcl.Diagnostic :=
  {| hcl.Severity := hcl.DiagWarning;
     hcl.Summary := "Deprecated syntax";
     hcl.Detail := "Quoted keywords are deprecated.";
     hcl.Subject := Some {| hcl.Filename := filename; hcl.StartLine := 2 |} |}.

Definition invalid (filename : string) : hcl.Diagnostic :=
  {| hcl.Severity := hcl.DiagError;
     hcl.Summary := "Invalid expression";
     hcl.Detail := "Expected the start of an expression.";
     hcl.Subject := Some {| hcl.Filename := filename; hcl.StartLine := 1 |} |}.

Definition redefined (filename : string) : hcl.Diagnostic :=
  {| hcl.Severity := hcl.DiagError;
     hcl.Summary := "Attribute redefined";
     hcl.Detail := "Each argument may be set only once.";
     hcl.Subject := Some {| hcl.Filename := filename; hcl.StartLine := 2 |} |}.

(** The two files of the README, a file with a warning, a file that
    defines [foo] twice, which the parser answers with an error and no
    file, and anything else a syntax error. *)
Definition ParseConfig (src filename : string)
    : SpecModel.File * hcl.Diagnostics :=
  if String.eqb src "A" then
    ([("foo", attr "foo" "a"); ("bar", attr "bar" "a")], [])
  else if String.eqb src "B" then
    ([("bar", attr "bar" "b"); ("baz", attr "baz" "b");
      ("boop", attr "boop" "b")], [])
  else if String.eqb src "W" then
    ([("baz", attr "baz" "w")], [deprecated filename])
  else if String.eqb src "D" then ([], [redefined filename])
  else ([], [invalid filename]).

Definition Create (path : string) : option string := None.

Definition WriteTo (dest : string) (doc : hclwrite.Tokens) : option string :=
  None.

Definition cmd (varFilePaths : list string) : Cmd :=
  {| versionP := false; outP := "-"; args := "module" :: varFilePaths |}.

End Demo.

(** Stand-ins for an output that cannot be opened and for one that cannot
    be written to. *)

Module Faulty.

Definition Create (path : string) : option string := Some "permission denied".

Definition WriteTo (dest : string) (doc : hclwrite.Tokens) : option string :=
  Some "broken pipe".

Definition cmdTo (out : string) (varFilePaths : list string) : Cmd :=
  {| versionP := false; outP := out; args := "module" :: varFilePaths |}.

End Faulty.

(** Stand-ins for files whose text has more white space than the formatter
    leaves. *)

Module Spaced.

Definition tok (before : nat) (s : string) : hclwrite.Token :=
  {| hclwrite.Type_ := 0; hclwrite.Bytes := s; hclwrite.SpacesBefore := before |}.

(** The text of [a.tfvars] and of [s.tfvars]. *)
Definition plainSrc : string := "alpha = y" +:+ LF.
Definition wideSrc : string := "alpha   =   x" +:+ LF.

(** Their attributes, the space before each token as in the text. *)
Definition plain : hclwrite.Attribute :=
  {| hclwrite.attrTokens := [tok 0 "alpha"; tok 1 "="; tok 1 "y"; tok 0 LF] |}.
Definition wide : hclwrite.Attribute :=
  {| hclwrite.attrTokens := [tok 0 "alpha"; tok 3 "="; tok 3 "x"; tok 0 LF] |}.

(** A module that declares [alpha]. *)
Definition LoadModule (modDir : string)
    : tfconfig.Module_ * list tfconfig.Diagnostic :=
  ({| tfconfig.Variables := list_to_map [Demo.variable "alpha"] |}, []).

Definition ReadFile (path : string) : string + string :=
  if String.eqb path "a.tfvars" then inl plainSrc
  else if String.eqb path "s.tfvars" then inl wideSrc
  else inr "no such file or directory".

Definition ParseConfig (src filename : string)
    : SpecModel.File * hcl.Diagnostics :=
  if String.eqb src plainSrc then ([("alpha", plain)], [])
  else if String.eqb src wideSrc then ([("alpha", wide)], [])
  else ([], [Demo.invalid filename]).

(** A stand-in for the formatter of hclwrite, good for lines of the form
    [name = value]: no space before the first token of a line and before
    a line end, one space before every other token. *)
Fixpoint formatFrom (lineStart : bool) (ts : hclwrite.Tokens)
    : hclwrite.Tokens :=
  match ts with
  | [] => []
  | t :: ts' =>
      let lineEnd := String.eqb (hclwrite.Bytes t) LF in
      {| hclwrite.Type_ := hclwrite.Type_ t;
         hclwrite.Bytes := hclwrite.Bytes t;
         hclwrite.SpacesBefore := if lineStart || lineEnd then 0 else 1 |}
      :: formatFrom lineEnd ts'
  end.

Definition format (ts : hclwrite.Tokens) : hclwrite.Tokens :=
  formatFrom true ts.

Definition cmd (varFilePaths : list string) : Cmd :=
  {| versionP := false; outP := "-"; args := "module" :: varFilePaths |}.

End Spaced.

Section Program.

(** [hclwrite.File]. *)
Context {File : Type}.

(** [tfconfig.LoadModule]. *)
Variable LoadModule : string -> tfconfig.Module_ * list tfconfig.Diagnostic.

(** [ioutil.ReadFile]: the content, or the text of the error. *)
Variable ReadFile : string -> string + string.

(** [hclwrite.ParseConfig] of a source and a file name, at the start
    position [Line: 1, Column: 1] that [main] always passes. *)
Variable ParseConfig : string -> string -> File * hcl.Diagnostics.

(** [varFile.Body().Attributes()]: the attributes of a parsed file, by
    name. *)
Variable Attributes : File -> gmap string hclwrite.Attribute.

(** [os.Create]: the text of the error, if any. *)
Variable Create : string -> option string.

(** [outF.WriteTo] on the destination: the text of the error, if any. *)
Variable WriteTo : string -> hclwrite.Tokens -> option string.

(** The body of the loop [for _, varFilePath := range varFilePaths]. *)
Definition processFile (wantedVarsSet : gset string) (st : LoopState)
    (varFilePath : string) : LoopState :=
  if HasSuffix varFilePath ".json" then
    {| diags := diags st ++ [jsonDiag varFilePath];
       attrs := attrs st;
       reads := reads st |}
  else
    match ReadFile varFilePath with
    | inr err =>
        {| diags := diags st ++ [readDiag varFilePath err];
           attrs := attrs st;
           reads := reads st ++ [varFilePath] |}
    | inl varFileSrc =>
        let '(varFile, hclDiags) := ParseConfig varFileSrc varFilePath in
        let diags' := appendHCLDiags (diags st) hclDiags in
        if hcl.HasErrors hclDiags then
          {| diags := diags'; attrs := attrs st;
             reads := reads st ++ [varFilePath] |}
        else
          {| diags := diags';
             attrs := mergeAttrs wantedVarsSet (attrs st)
                        (map_to_list (Attributes varFile));
             reads := reads st ++ [varFilePath] |}
    end.

Definition processFiles (wantedVarsSet : gset string) (st : LoopState)
    (varFilePaths : list string) : LoopState :=
  foldl (processFile wantedVarsSet) st varFilePaths.

(** An exit after the file loop, before anything is created or written. *)
Definition exitOutcome (e : Exit) (rd : list string) : Outcome :=
  {| stdout := ""; stderr := exitStderr e; status := exitCode e;
     opened := rd; created := []; wrote := None |}.

(** The end of [main], from [outF.WriteTo] on. *)
Definition writeOut (out : string) (outF : hclwrite.Tokens)
    (ds : list tfconfig.Diagnostic) (rd cr : list string) : Outcome :=
  let e :=
    match WriteTo out outF with
    | Some err => exitWithDiags (ds ++ [writeDiag out err])
    | None => exitWithDiags ds
    end in
  {| stdout := ""; stderr := exitStderr e; status := exitCode e;
     opened := rd; created := cr; wrote := Some (out, outF) |}.

Definition main (cmd : Cmd) : Outcome :=
  if versionP cmd then
    let versionStr := Version in
    let versionStr :=
      if negb (String.eqb Prerelease "")
      then versionStr +:+ "-" +:+ Prerelease else versionStr in
    {| stdout := "terraform-filter-vars " +:+ versionStr +:+ LF;
       stderr := ""; status := 0; opened := []; created := []; wrote := None |}
  else
    match args cmd with
    | [] =>
        {| stdout := ""; stderr := usage; status := 1;
           opened := []; created := []; wrote := None |}
    | modDir :: varFilePaths =>
        let '(mod_, moreDiags) := LoadModule modDir in
        let diags0 := [] ++ moreDiags in
        match exitIfErrors diags0 with
        | Some e => exitOutcome e []
        | None =>
            let '(wantedVars, wantedVarsSet) :=
              collectWanted (map_to_list (tfconfig.Variables mod_)).*1 in
            let wantedVars := sort_Strings wantedVars in
            let st :=
              processFiles wantedVarsSet
                {| diags := diags0; attrs := ∅; reads := [] |} varFilePaths in
            match exitIfErrors (diags st) with
            | Some e => exitOutcome e (reads st)
            | None =>
                let outF := emit wantedVars (attrs st) in
                if String.eqb (outP cmd) "-" then
                  writeOut (outP cmd) outF (diags st) (reads st) []
                else
                  match Create (outP cmd) with
                  | Some err =>
                      let e :=
                        exitWithDiags (diags st ++ [createDiag (outP cmd) err]) in
                      {| stdout := ""; stderr := exitStderr e;
                         status := exitCode e; opened := reads st;
                         created := [outP cmd]; wrote := None |}
                  | None =>
                      writeOut (outP cmd) outF (diags st) (reads st) [outP cmd]
                  end
            end
        end
    end.

(** ** The run, seen from outside *)

(** What a file argument brings to the merge: the attributes of its parse,
    when it is read and parses without error. *)
Definition contribution (varFilePath : string)
    : option (gmap string hclwrite.Attribute) :=
  if HasSuffix varFilePath ".json" then None
  else
    match ReadFile varFilePath with
    | inr _ => None
    | inl varFileSrc =>
        let '(varFile, hclDiags) := ParseConfig varFileSrc varFilePath in
        if hcl.HasErrors hclDiags then None else Some (Attributes varFile)
    end.

(** The diagnostics a file argument adds. *)
Definition fileDiags (varFilePath : string) : list tfconfig.Diagnostic :=
  if HasSuffix varFilePath ".json" then [jsonDiag varFilePath]
  else
    match ReadFile varFilePath with
    | inr err => [readDiag varFilePath err]
    | inl varFileSrc =>
        convertHCLDiag <$> (ParseConfig varFileSrc varFilePath).2
    end.

(** The declared names, in the two shapes [main] keeps them. *)
Definition wantedVarsOf (modDir : string) : list string :=
  sort_Strings
    (collectWanted (map_to_list (tfconfig.Variables (LoadModule modDir).1)).*1).1.

Definition wantedVarsSetOf (modDir : string) : gset string :=
  (collectWanted (map_to_list (tfconfig.Variables (LoadModule modDir).1)).*1).2.

(** The state after the loop over the file arguments. *)
Definition finalState (modDir : string) (varFilePaths : list string)
    : LoopState :=
  processFiles (wantedVarsSetOf modDir)
    {| diags := [] ++ (LoadModule modDir).2; attrs := ∅; reads := [] |}
    varFilePaths.

(** The attributes a run appends to the output body, in order, each with
    the name it is appended under. *)
Definition outline (cmd : Cmd) : list (string * hclwrite.Attribute) :=
  match args cmd with
  | [] => []
  | modDir :: varFilePaths =>
      emitted (wantedVarsOf modDir) (attrs (finalState modDir varFilePaths))
  end.

End Program.

(** ** The order of [sort.Strings] *)

Lemma string_compare_refl a : String.compare a a = Eq.
Proof.
  induction a as [|c a IH]; simpl; [done|].
  unfold Ascii.compare. by rewrite N.compare_refl.
Qed.

Lemma string_le_refl a : string_le a a.
Proof. unfold string_le, String.leb. by rewrite string_compare_refl. Qed.

Lemma string_le_trans a b c : string_le a b -> string_le b c -> string_le a c.
Proof.
  unfold string_le, String.leb. revert b c.
  induction a as [|x a IH]; intros [|y b] [|z c]; simpl; try done.
  unfold Ascii.compare.
  destruct (N.compare_spec (N_of_ascii x) (N_of_ascii y)) as [Hxy|Hxy|Hxy];
    destruct (N.compare_spec (N_of_ascii y) (N_of_ascii z)) as [Hyz|Hyz|Hyz];
    destruct (N.compare_spec (N_of_ascii x) (N_of_ascii z)) as [Hxz|Hxz|Hxz];
    try done; try lia; eauto.
Qed.

#[global] Instance string_le_Reflexive : Reflexive string_le := string_le_refl.
#[global] Instance string_le_Transitive : Transitive string_le := string_le_trans.

#[global] Instance string_le_Total : Total string_le.
Proof. intros a b. apply String.leb_total. Qed.

#[global] Instance string_le_AntiSymm : AntiSymm (=) string_le.
Proof. intros a b. apply String.leb_antisym. Qed.

Lemma string_lt_le_ne a b : string_lt a b <-> string_le a b /\ a <> b.
Proof.
  unfold string_lt, string_le, String.ltb, String.leb. split.
  - intros H. destruct (String.compare a b) eqn:E; try done. split; [done|].
    intros ->. rewrite string_compare_refl in E. done.
  - intros [H Hne]. destruct (String.compare a b) eqn:E; try done.
    apply String.compare_eq_iff in E. done.
Qed.

Lemma StronglySorted_le_NoDup_lt (l : list string) :
  StronglySorted string_le l -> NoDup l -> StronglySorted string_lt l.
Proof.
  induction 1 as [|x l Hl IH Hx]; intros Hnd; [constructor|].
  apply NoDup_cons in Hnd as [Hx' Hnd]. constructor; [by apply IH|].
  rewrite Forall_forall in Hx |- *. intros y Hy.
  apply string_lt_le_ne. split; [by apply Hx|]. intros ->. done.
Qed.

Lemma sort_Strings_sorted l : StronglySorted string_le (sort_Strings l).
Proof. apply StronglySorted_merge_sort; apply _. Qed.

Lemma sort_Strings_perm l : sort_Strings l ≡ₚ l.
Proof. apply merge_sort_Permutation. Qed.

(** The order in which a [range] over a map yields the names does not show
    after [sort.Strings]. *)
Lemma sort_Strings_order l l' : l ≡ₚ l' -> sort_Strings l = sort_Strings l'.
Proof.
  intros H. apply (StronglySorted_unique string_le); try apply sort_Strings_sorted.
  by rewrite !sort_Strings_perm.
Qed.

(** ** The loops over the two maps *)

Lemma collectWanted_spec names :
  collectWanted names = (names, list_to_set names).
Proof.
  unfold collectWanted.
  assert (forall acc (s : gset string),
    foldl (fun '(wantedVars, wantedVarsSet) name =>
             (wantedVars ++ [name], {[ name ]} ∪ wantedVarsSet))
          (acc, s) names
    = (acc ++ names, list_to_set names ∪ s)) as H.
  { induction names as [|n names IH]; intros acc s; simpl.
    - rewrite app_nil_r. f_equal. set_solver.
    - rewrite IH, <- app_assoc. simpl. f_equal. set_solver. }
  rewrite H. simpl. f_equal. set_solver.
Qed.

(** The order in which the [range] yields the names of the module's
    variables shows neither in the sorted names nor in the set. *)
Lemma collectWanted_order names names' :
  names ≡ₚ names' ->
  sort_Strings (collectWanted names).1 = sort_Strings (collectWanted names').1
  /\ (collectWanted names).2 = (collectWanted names').2.
Proof.
  intros Hp. rewrite !collectWanted_spec. simpl. split.
  - by apply sort_Strings_order.
  - apply set_eq. intros x. rewrite !elem_of_list_to_set. by rewrite Hp.
Qed.

Lemma mergeAttrs_snoc S attrs entries name attr :
  mergeAttrs S attrs (entries ++ [(name, attr)])
  = if decide (name ∈ S)
    then <[ name := attr ]> (mergeAttrs S attrs entries)
    else mergeAttrs S attrs entries.
Proof. unfold mergeAttrs. by rewrite foldl_app. Qed.

(** One pass over the entries of a map, whatever the order: a wanted name
    takes the entry's attribute and every other name keeps what it had. *)
Lemma mergeAttrs_lookup S attrs (entries : list (string * hclwrite.Attribute)) k :
  NoDup entries.*1 ->
  mergeAttrs S attrs entries !! k
  = match (list_to_map entries : gmap string hclwrite.Attribute) !! k with
    | Some a => if decide (k ∈ S) then Some a else attrs !! k
    | None => attrs !! k
    end.
Proof.
  induction entries as [|[n a] entries IH] using rev_ind; intros Hnd; [done|].
  rewrite fmap_app in Hnd. apply NoDup_app in Hnd as (Hnd & Hn & _).
  specialize (IH Hnd). rewrite mergeAttrs_snoc.
  assert ((list_to_map (entries ++ [(n, a)]) : gmap string hclwrite.Attribute) !! k
          = if decide (n = k) then Some a
            else (list_to_map entries : gmap string hclwrite.Attribute) !! k) as ->.
  { destruct (decide (n = k)) as [->|Hne].
    - apply elem_of_list_to_map_1.
      + rewrite fmap_app. apply NoDup_app. split; [done|].
        split; [|apply NoDup_singleton]. done.
      + set_solver.
    - destruct (list_to_map entries !! k) as [b|] eqn:E.
      + apply elem_of_list_to_map_1.
        * rewrite fmap_app. apply NoDup_app. split; [done|].
          split; [|apply NoDup_singleton]. done.
        * apply elem_of_list_to_map_2 in E. set_solver.
      + apply not_elem_of_list_to_map_1. rewrite fmap_app.
        apply not_elem_of_list_to_map_2 in E. set_solver. }
  destruct (decide (n = k)) as [->|Hne].
  - destruct (decide (k ∈ S)); [by rewrite lookup_insert_eq|].
    rewrite IH. replace (list_to_map entries !! k) with (@None hclwrite.Attribute); [done|].
    symmetry. apply not_elem_of_list_to_map_1. intros Hk. apply (Hn k); set_solver.
  - destruct (decide (n ∈ S)); [rewrite lookup_insert_ne by done|]; apply IH.
Qed.

Lemma mergeAttrs_map_lookup S attrs (m : gmap string hclwrite.Attribute) k :
  mergeAttrs S attrs (map_to_list m) !! k
  = match m !! k with
    | Some a => if decide (k ∈ S) then Some a else attrs !! k
    | None => attrs !! k
    end.
Proof.
  rewrite mergeAttrs_lookup by apply NoDup_fst_map_to_list.
  by rewrite list_to_map_to_list.
Qed.

(** The order in which the [range] yields the entries of the map does not
    show in the result. *)
Lemma mergeAttrs_order S attrs (m : gmap string hclwrite.Attribute) entries :
  entries ≡ₚ map_to_list m ->
  mergeAttrs S attrs entries = mergeAttrs S attrs (map_to_list m).
Proof.
  intros Hp. apply map_eq. intros k.
  rewrite mergeAttrs_map_lookup, mergeAttrs_lookup.
  - replace (list_to_map entries) with m; [done|].
    rewrite <- (list_to_map_to_list m) at 1. symmetry. apply list_to_map_proper; [|done].
    rewrite Hp. apply NoDup_fst_map_to_list.
  - rewrite Hp. apply NoDup_fst_map_to_list.
Qed.

(** ** Diagnostics *)

Lemma appendHCLDiags_spec ds (hclDiags : hcl.Diagnostics) :
  appendHCLDiags ds hclDiags = ds ++ (convertHCLDiag <$> hclDiags).
Proof.
  unfold appendHCLDiags. revert ds.
  induction hclDiags as [|d hclDiags IH]; intros ds; simpl.
  - by rewrite app_nil_r.
  - rewrite IH, <- app_assoc. done.
Qed.

Lemma anyError_app ds1 ds2 : anyError (ds1 ++ ds2) = anyError ds1 || anyError ds2.
Proof. apply existsb_app. Qed.

Lemma anyError_false ds : anyError ds = false <-> Forall (fun d => isError d = false) ds.
Proof.
  unfold anyError. induction ds as [|d ds IH]; simpl.
  - split; [constructor|done].
  - rewrite orb_false_iff, Forall_cons, IH. done.
Qed.

Lemma HasErrors_convert (hclDiags : hcl.Diagnostics) :
  hcl.HasErrors hclDiags = anyError (convertHCLDiag <$> hclDiags).
Proof.
  unfold hcl.HasErrors, anyError.
  induction hclDiags as [|d hclDiags IH]; simpl; [done|].
  rewrite IH. f_equal. unfold isError, convertHCLDiag. simpl.
  by destruct (hcl.Severity d).
Qed.

Lemma warnings_no_error ds :
  Forall (fun d => isWarning d = true) ds -> anyError ds = false.
Proof.
  intros H. apply anyError_false. eapply Forall_impl; [exact H|].
  intros d. unfold isWarning, isError. by destruct (tfconfig.Severity d).
Qed.

Lemma showDiags_snoc ds d : showDiags (ds ++ [d]) = showDiags ds +:+ showDiag d.
Proof. unfold showDiags. by rewrite foldl_app. Qed.


(** ** The loop that fills the output body *)

Lemma emit_spans wantedVars (m : gmap string hclwrite.Attribute) :
  emit wantedVars m = spans (emitted wantedVars m).
Proof.
  unfold emit. change (spans (emitted wantedVars m))
    with (hclwrite.NewEmptyFile ++ spans (emitted wantedVars m)).
  generalize hclwrite.NewEmptyFile. intros outBody.
  revert outBody. induction wantedVars as [|n wantedVars IH]; intros outBody; simpl.
  - unfold spans. simpl. by rewrite app_nil_r.
  - rewrite IH. unfold emitted. simpl. destruct (m !! n) as [a|]; simpl; [|done].
    unfold hclwrite.AppendUnstructuredTokens, hclwrite.BuildTokens, spans.
    simpl. by rewrite <- app_assoc.
Qed.

Lemma elem_of_emitted wantedVars (m : gmap string hclwrite.Attribute) n a :
  (n, a) ∈ emitted wantedVars m <-> n ∈ wantedVars /\ m !! n = Some a.
Proof.
  unfold emitted. rewrite list_elem_of_omap. split.
  - intros (x & Hx & H). destruct (m !! x) as [b|] eqn:E; simplify_eq/=. done.
  - intros [Hn H]. exists n. by rewrite H.
Qed.

Lemma emitted_names wantedVars (m : gmap string hclwrite.Attribute) :
  (emitted wantedVars m).*1 = filter (fun n => is_Some (m !! n)) wantedVars.
Proof.
  induction wantedVars as [|n wantedVars IH]; [done|].
  rewrite filter_cons, <- IH. unfold emitted. cbn [omap list_omap].
  case_decide as Hn.
  - destruct Hn as [a ->]. done.
  - destruct (m !! n) as [a|]; [|done]. destruct Hn. eauto.
Qed.

Lemma StronglySorted_filter_lt (P : string -> Prop) `{!forall x, Decision (P x)} l :
  StronglySorted string_lt l -> StronglySorted string_lt (filter P l).
Proof.
  induction 1 as [|x l Hl IH Hx]; [constructor|].
  rewrite filter_cons. case_decide; [|done]. constructor; [done|].
  rewrite Forall_forall in Hx |- *. intros y Hy. apply Hx.
  by apply list_elem_of_filter in Hy as [_ Hy].
Qed.

Lemma StronglySorted_lt_NoDup (l : list string) :
  StronglySorted string_lt l -> NoDup l.
Proof.
  induction 1 as [|x l Hl IH Hx]; constructor; [|done].
  intros Hin. rewrite Forall_forall in Hx. apply Hx in Hin.
  apply string_lt_le_ne in Hin as [_ Hne]. done.
Qed.


Lemma spans_app l1 l2 : spans (l1 ++ l2) = spans l1 ++ spans l2.
Proof. unfold spans. rewrite fmap_app. apply join_app. Qed.

Lemma spans_cons n a l : spans ((n, a) :: l) = hclwrite.attrTokens a ++ spans l.
Proof. done. Qed.

(** ** Membership in a list that grows at its end *)

Lemma elem_of_snoc_l {A} (l : list A) x y : x ∈ l -> x ∈ l ++ [y].
Proof. intros H. apply elem_of_app. by left. Qed.

Lemma elem_of_snoc_r {A} (l : list A) x : x ∈ l ++ [x].
Proof. apply elem_of_app. right. by apply list_elem_of_singleton. Qed.

(** ** Strings: append, length and suffix *)

Lemma string_app_cons c s t : String c s +:+ t = String c (s +:+ t).
Proof. reflexivity. Qed.

Lemma string_app_nil_l s : "" +:+ s = s.
Proof. reflexivity. Qed.

Lemma string_app_assoc a b c : (a +:+ b) +:+ c = a +:+ (b +:+ c).
Proof.
  induction a as [|x a IH]; [done|].
  by rewrite !string_app_cons, IH.
Qed.

Lemma string_length_app a b :
  String.length (a +:+ b) = String.length a + String.length b.
Proof.
  induction a as [|x a IH]; [done|].
  rewrite string_app_cons. simpl. by rewrite IH.
Qed.

Lemma substring_all s : String.substring 0 (String.length s) s = s.
Proof. induction s as [|c s IH]; [done|]. simpl. by rewrite IH. Qed.

Lemma substring_skip pre m s :
  String.substring (String.length pre) m (pre +:+ s) = String.substring 0 m s.
Proof.
  induction pre as [|c pre IH]; [done|].
  rewrite string_app_cons. simpl. apply IH.
Qed.

Lemma substring_split s n :
  n <= String.length s ->
  s = String.substring 0 n s +:+ String.substring n (String.length s - n) s.
Proof.
  revert n. induction s as [|c s IH]; intros n Hn.
  - simpl in Hn. by replace n with 0 by lia.
  - destruct n as [|n].
    + simpl. rewrite string_app_nil_l. by rewrite substring_all.
    + simpl in Hn. simpl. rewrite string_app_cons. f_equal. apply IH. lia.
Qed.

(** ** The bytes of a token sequence *)

Lemma TokensBytes_app ts1 ts2 :
  hclwrite.TokensBytes (ts1 ++ ts2)
  = hclwrite.TokensBytes ts1 +:+ hclwrite.TokensBytes ts2.
Proof.
  unfold hclwrite.TokensBytes.
  induction ts1 as [|t ts1 IH]; [done|].
  simpl. by rewrite IH, !string_app_assoc.
Qed.

(** A formatter that leaves the content of the tokens writes the tokens of
    a body of three parts part by part, each with its content. *)
Lemma FileBytes_parts format (ts1 ts2 ts3 : hclwrite.Tokens) :
  (forall ts : hclwrite.Tokens,
     hclwrite.tokenContent <$> format ts = hclwrite.tokenContent <$> ts) ->
  exists t1 t2 t3,
    hclwrite.FileBytes format (ts1 ++ ts2 ++ ts3)
    = hclwrite.TokensBytes t1 +:+ hclwrite.TokensBytes t2
      +:+ hclwrite.TokensBytes t3
    /\ hclwrite.tokenContent <$> t1 = hclwrite.tokenContent <$> ts1
    /\ hclwrite.tokenContent <$> t2 = hclwrite.tokenContent <$> ts2
    /\ hclwrite.tokenContent <$> t3 = hclwrite.tokenContent <$> ts3.
Proof.
  intros Hf. pose proof (Hf (ts1 ++ ts2 ++ ts3)) as H.
  rewrite !fmap_app in H.
  apply fmap_app_inv in H as (t1 & t23 & H1 & H23 & E).
  symmetry in H23. apply fmap_app_inv in H23 as (t2 & t3 & H2 & H3 & E').
  exists t1, t2, t3. unfold hclwrite.FileBytes.
  rewrite E, E', !TokensBytes_app. done.
Qed.

(** The stand-in for the formatter leaves the content of the tokens. *)
Lemma Spaced_format_content (ts : hclwrite.Tokens) :
  hclwrite.tokenContent <$> Spaced.format ts = hclwrite.tokenContent <$> ts.
Proof.
  unfold Spaced.format. generalize true.
  induction ts as [|t ts IH]; intros b; [done|].
  simpl. by rewrite IH.
Qed.

(** X1 ([strings.HasSuffix] at line 62).  The test that rejects a file
    argument as JSON holds exactly when the path is some text followed by
    the suffix; so, for [.json], exactly for the paths that end in these
    five bytes, the path [.json] itself included, and in no other
    spelling of the extension. *)
Theorem HasSuffix_iff s suffix :
  HasSuffix s suffix = true <-> exists pre, s = pre +:+ suffix.
Proof.
  unfold HasSuffix. rewrite andb_true_iff, Nat.leb_le, String.eqb_eq. split.
  - intros [Hle Hsub].
    exists (String.substring 0 (String.length s - String.length suffix) s).
    pose proof (substring_split s (String.length s - String.length suffix))
      as E.
    replace (String.length s - (String.length s - String.length suffix))
      with (String.length suffix) in E by lia.
    rewrite Hsub in E. apply E. lia.
  - intros [pre ->]. rewrite string_length_app. split; [lia|].
    replace (String.length pre + String.length suffix - String.length suffix)
      with (String.length pre) by lia.
    rewrite substring_skip. apply substring_all.
Qed.

(** ** The two exit functions *)

Lemma anyError_true ds :
  anyError ds = true
  <-> exists d, d ∈ ds /\ tfconfig.Severity d = tfconfig.DiagError.
Proof.
  unfold anyError. rewrite existsb_exists. split.
  - intros (d & Hd & He). exists d. split; [by apply list_elem_of_In|].
    unfold isError in He. by destruct (tfconfig.Severity d).
  - intros (d & Hd & He). exists d. split; [by apply list_elem_of_In|].
    unfold isError. by rewrite He.
Qed.

(** X2 ([exitWithDiags] and [exitIfErrors]).  The status of
    [exitWithDiags] is 1 exactly when some diagnostic has severity error,
    and 0 otherwise: warnings and diagnostics without a severity never
    fail a run.  [exitIfErrors] returns to its caller exactly when
    [exitWithDiags] would end with status 0, and when it ends the process
    it does what [exitWithDiags] does: the same text, the same status. *)
Theorem exit_functions_agree ds :
  (exitCode (exitWithDiags ds) = 1
   <-> exists d, d ∈ ds /\ tfconfig.Severity d = tfconfig.DiagError)
  /\ (exitCode (exitWithDiags ds) = 0
      <-> Forall (fun d => tfconfig.Severity d <> tfconfig.DiagError) ds)
  /\ (exitIfErrors ds = None <-> exitCode (exitWithDiags ds) = 0)
  /\ (forall e, exitIfErrors ds = Some e -> e = exitWithDiags ds).
Proof.
  rewrite <- anyError_true. unfold exitIfErrors, exitWithDiags. simpl.
  assert (anyError ds = false
          <-> Forall (fun d => tfconfig.Severity d <> tfconfig.DiagError) ds)
    as Hf.
  { rewrite anyError_false. apply Forall_iff. intros d. unfold isError.
    destruct (tfconfig.Severity d); split; done. }
  rewrite <- Hf.
  destruct (anyError ds); repeat split; try done.
  by intros e [= <-].
Qed.

(** ** [appendHCLDiags] *)

(** X3 ([appendHCLDiags]).  The diagnostics collected so far stay where
    they are and the converted ones follow in the order of the parser, one
    for one, whatever their severity; and the result holds an error
    exactly when the diagnostics collected so far do or the parser's
    [HasErrors] holds, so that the file loop skips a file (line 88)
    exactly when the conversion has added an error. *)
Theorem appendHCLDiags_keeps_and_converts ds (hclDiags : hcl.Diagnostics) :
  length (appendHCLDiags ds hclDiags) = length ds + length hclDiags
  /\ take (length ds) (appendHCLDiags ds hclDiags) = ds
  /\ (forall i d, hclDiags !! i = Some d ->
        appendHCLDiags ds hclDiags !! (length ds + i) = Some (convertHCLDiag d))
  /\ anyError (appendHCLDiags ds hclDiags)
     = anyError ds || hcl.HasErrors hclDiags.
Proof.
  rewrite appendHCLDiags_spec. split; [|split; [|split]].
  - by rewrite length_app, length_fmap.
  - by rewrite take_app_length.
  - intros i d Hd. rewrite lookup_app_r by lia.
    replace (length ds + i - length ds) with i by lia.
    rewrite list_lookup_fmap. unfold hcl.Diagnostics in *. by rewrite Hd.
  - by rewrite anyError_app, HasErrors_convert.
Qed.

(** ** [showDiags] over a list in two parts *)

Lemma showDiags_from acc ds :
  foldl (fun err diag => err +:+ showDiag diag) acc ds = acc +:+ showDiags ds.
Proof.
  unfold showDiags. revert acc.
  induction ds as [|d ds IH] using rev_ind; intros acc.
  - simpl. clear. induction acc as [|c acc IH]; [done|].
    by rewrite string_app_cons, <- IH.
  - rewrite !foldl_app. simpl. by rewrite IH, string_app_assoc.
Qed.

(** X4 ([showDiags]).  Showing a list of diagnostics writes what showing
    its first part writes, then what showing the rest writes: the text of
    the diagnostics collected before a checkpoint is a prefix of the text
    shown after it, and nothing is written for an empty list. *)
Theorem showDiags_app ds1 ds2 :
  showDiags (ds1 ++ ds2) = showDiags ds1 +:+ showDiags ds2.
Proof.
  unfold showDiags at 1. rewrite foldl_app.
  fold (showDiags ds1). apply showDiags_from.
Qed.

(** ** The merge of one map into another *)

Lemma mergeAttrs_union S attrs (m : gmap string hclwrite.Attribute) :
  mergeAttrs S attrs (map_to_list m)
  = filter (fun kv => kv.1 ∈ S) m ∪ attrs.
Proof.
  apply map_eq. intros k.
  rewrite mergeAttrs_map_lookup, lookup_union, map_lookup_filter.
  destruct (m !! k) as [a|]; simpl.
  - case_decide.
    + rewrite option_guard_True by done. simpl. by destruct (attrs !! k).
    + rewrite option_guard_False by done. simpl. by destruct (attrs !! k).
  - by destruct (attrs !! k).
Qed.

(** ** The order of a [range] over a map *)

(** X17 (lines 53 to 57 and 92 to 101).  Go yields the entries of a map in
    an order of its choice.  Whatever the order in which the names of the
    module's variables come, the sorted slice and the set of declared
    names are the same; and whatever the order in which the attributes of
    a file come, the map after the merge is the same. *)
Theorem range_order_does_not_show
    (vars : gmap string tfconfig.Variable_) (names : list string)
    (m : gmap string hclwrite.Attribute)
    (entries : list (string * hclwrite.Attribute)) S attrs :
  names ≡ₚ (map_to_list vars).*1 ->
  entries ≡ₚ map_to_list m ->
  sort_Strings (collectWanted names).1
  = sort_Strings (collectWanted (map_to_list vars).*1).1
  /\ (collectWanted names).2 = (collectWanted (map_to_list vars).*1).2
  /\ mergeAttrs S attrs entries = mergeAttrs S attrs (map_to_list m).
Proof.
  intros Hn He.
  destruct (collectWanted_order _ _ Hn) as [H1 H2].
  split; [done|]. split; [done|]. by apply mergeAttrs_order.
Qed.

(** ** The program over its collaborators *)

Section Properties.

Context {File : Type}.
Variable LoadModule : string -> tfconfig.Module_ * list tfconfig.Diagnostic.
Variable ReadFile : string -> string + string.
Variable ParseConfig : string -> string -> File * hcl.Diagnostics.
Variable Attributes : File -> gmap string hclwrite.Attribute.
Variable Create : string -> option string.
Variable WriteTo : string -> hclwrite.Tokens -> option string.

Set Default Proof Using "Type".

Local Abbreviation processFile := (processFile ReadFile ParseConfig Attributes).
Local Abbreviation processFiles := (processFiles ReadFile ParseConfig Attributes).
Local Abbreviation contribution := (contribution ReadFile ParseConfig Attributes).
Local Abbreviation fileDiags := (fileDiags ReadFile ParseConfig).
Local Abbreviation wantedVarsOf := (wantedVarsOf LoadModule).
Local Abbreviation wantedVarsSetOf := (wantedVarsSetOf LoadModule).
Local Abbreviation finalState :=
  (finalState LoadModule ReadFile ParseConfig Attributes).
Local Abbreviation outline := (outline LoadModule ReadFile ParseConfig Attributes).
Local Abbreviation main :=
  (main LoadModule ReadFile ParseConfig Attributes Create WriteTo).
Local Abbreviation writeOut := (writeOut WriteTo).

(** ** One file argument *)

Lemma processFile_diags S st p :
  diags (processFile S st p) = diags st ++ fileDiags p.
Proof.
  unfold processFile, fileDiags.
  destruct (HasSuffix p ".json"); [done|].
  destruct (ReadFile p) as [src|err]; [|done].
  destruct (ParseConfig src p) as [varFile hclDiags]. simpl.
  destruct (hcl.HasErrors hclDiags); simpl; apply appendHCLDiags_spec.
Qed.

Lemma processFile_reads S st p :
  reads (processFile S st p)
  = reads st ++ (if HasSuffix p ".json" then [] else [p]).
Proof.
  unfold processFile.
  destruct (HasSuffix p ".json"); [by rewrite app_nil_r|].
  destruct (ReadFile p) as [src|err]; [|done].
  destruct (ParseConfig src p) as [varFile hclDiags].
  by destruct (hcl.HasErrors hclDiags).
Qed.

Lemma processFile_attrs S st p :
  attrs (processFile S st p)
  = match contribution p with
    | Some m => mergeAttrs S (attrs st) (map_to_list m)
    | None => attrs st
    end.
Proof.
  unfold processFile, contribution.
  destruct (HasSuffix p ".json"); [done|].
  destruct (ReadFile p) as [src|err]; [|done].
  destruct (ParseConfig src p) as [varFile hclDiags].
  by destruct (hcl.HasErrors hclDiags).
Qed.

Lemma processFile_lookup S st p k :
  attrs (processFile S st p) !! k
  = match contribution p ≫= (fun m => m !! k) with
    | Some a => if decide (k ∈ S) then Some a else attrs st !! k
    | None => attrs st !! k
    end.
Proof.
  rewrite processFile_attrs. destruct (contribution p) as [m|]; simpl; [|done].
  apply mergeAttrs_map_lookup.
Qed.

(** A file argument without an error diagnostic is one that contributes. *)
Lemma fileDiags_no_error p :
  anyError (fileDiags p) = false -> is_Some (contribution p).
Proof.
  unfold fileDiags, contribution.
  destruct (HasSuffix p ".json"); [done|].
  destruct (ReadFile p) as [src|err]; [|done].
  destruct (ParseConfig src p) as [varFile hclDiags]. simpl.
  rewrite <- HasErrors_convert. intros ->. eauto.
Qed.

(** ** The loop over the file arguments *)

Lemma processFiles_snoc S st ps p :
  processFiles S st (ps ++ [p]) = processFile S (processFiles S st ps) p.
Proof. unfold processFiles. by rewrite foldl_app. Qed.

Lemma processFiles_app S st ps1 ps2 :
  processFiles S st (ps1 ++ ps2) = processFiles S (processFiles S st ps1) ps2.
Proof. unfold processFiles. by rewrite foldl_app. Qed.

Lemma processFiles_diags S st ps :
  diags (processFiles S st ps) = diags st ++ mjoin (fileDiags <$> ps).
Proof.
  induction ps as [|p ps IH] using rev_ind; simpl.
  - by rewrite app_nil_r.
  - rewrite processFiles_snoc, processFile_diags, IH, fmap_app, join_app.
    simpl. by rewrite app_nil_r, app_assoc.
Qed.

Lemma processFiles_reads S st ps :
  reads (processFiles S st ps)
  = reads st ++ filter (fun p => HasSuffix p ".json" = false) ps.
Proof.
  induction ps as [|p ps IH] using rev_ind; simpl.
  - by rewrite app_nil_r.
  - rewrite processFiles_snoc, processFile_reads, IH, filter_app, <- app_assoc.
    f_equal. f_equal. rewrite filter_cons, filter_nil.
    destruct (HasSuffix p ".json"); by case_decide.
Qed.

(** A name outside the declared set is never written to the map. *)
Lemma processFiles_unwanted S st ps k :
  k ∉ S -> attrs (processFiles S st ps) !! k = attrs st !! k.
Proof.
  intros Hk. induction ps as [|p ps IH] using rev_ind; [done|].
  rewrite processFiles_snoc, processFile_lookup.
  destruct (contribution p ≫= _); [|done]. by rewrite decide_False.
Qed.

(** A name no file defines keeps what it had. *)
Lemma processFiles_undefined S st ps k :
  (forall p m, p ∈ ps -> contribution p = Some m -> m !! k = None) ->
  attrs (processFiles S st ps) !! k = attrs st !! k.
Proof.
  induction ps as [|p ps IH] using rev_ind; intros H; [done|].
  rewrite processFiles_snoc, processFile_lookup, IH.
  - destruct (contribution p) as [m|] eqn:E; simpl; [|done].
    rewrite (H p m); [done| apply elem_of_snoc_r | done].
  - intros q m Hq. apply H. by apply elem_of_snoc_l.
Qed.

(** An entry of the map is never removed. *)
Lemma processFile_mono S st p k :
  is_Some (attrs st !! k) -> is_Some (attrs (processFile S st p) !! k).
Proof.
  intros H. rewrite processFile_lookup.
  destruct (contribution p ≫= _); [|done]. by case_decide.
Qed.

Lemma processFiles_mono S st ps k :
  is_Some (attrs st !! k) -> is_Some (attrs (processFiles S st ps) !! k).
Proof.
  intros H. induction ps as [|p ps IH] using rev_ind; [done|].
  rewrite processFiles_snoc. by apply processFile_mono.
Qed.

(** The last file that defines a declared name decides its entry. *)
Lemma processFiles_last S st pre B post m k a :
  k ∈ S -> contribution B = Some m -> m !! k = Some a ->
  (forall p m', p ∈ post -> contribution p = Some m' -> m' !! k = None) ->
  attrs (processFiles S st (pre ++ B :: post)) !! k = Some a.
Proof.
  intros Hk HB Ha Hpost.
  rewrite (processFiles_app S st pre (B :: post)).
  change (B :: post) with ([B] ++ post). rewrite processFiles_app.
  rewrite processFiles_undefined by done.
  change (processFiles S (processFiles S st pre) [B])
    with (processFile S (processFiles S st pre) B).
  rewrite processFile_lookup, HB. simpl. rewrite Ha. by rewrite decide_True.
Qed.

(** The names the map holds after the loop. *)
Lemma processFiles_is_Some S st ps k :
  is_Some (attrs (processFiles S st ps) !! k)
  <-> is_Some (attrs st !! k)
      \/ (k ∈ S /\ exists p m, p ∈ ps /\ contribution p = Some m /\ is_Some (m !! k)).
Proof.
  induction ps as [|p ps IH] using rev_ind.
  - split; [by left|]. intros [H|(_ & q & m & Hq & _)]; [done|].
    by apply elem_of_nil in Hq.
  - rewrite processFiles_snoc, processFile_lookup.
    destruct (contribution p) as [m|] eqn:E; simpl.
    + destruct (m !! k) as [a|] eqn:Ea.
      * case_decide as Hk.
        -- split; [|eauto]. intros _. right. split; [done|].
           exists p, m. rewrite Ea. split; [apply elem_of_snoc_r|eauto].
        -- rewrite IH. split; [|by intros [H|[H _]]; [left|]].
           intros [H|[H _]]; [by left|done].
      * rewrite IH. split.
        -- intros [H|(Hk & q & m' & Hq & Hc & Hs)]; [by left|].
           right. split; [done|]. exists q, m'.
           split; [by apply elem_of_snoc_l|done].
        -- intros [H|(Hk & q & m' & Hq & Hc & Hs)]; [by left|].
           right. split; [done|]. exists q, m'. split; [|done].
           apply elem_of_app in Hq as [Hq|Hq]; [done|].
           apply list_elem_of_singleton in Hq as ->.
           rewrite E in Hc. injection Hc as <-. rewrite Ea in Hs.
           by destruct Hs.
    + rewrite IH. split.
      * intros [H|(Hk & q & m' & Hq & Hc & Hs)]; [by left|].
        right. split; [done|]. exists q, m'.
        split; [by apply elem_of_snoc_l|done].
      * intros [H|(Hk & q & m' & Hq & Hc & Hs)]; [by left|].
        right. split; [done|]. exists q, m'. split; [|done].
        apply elem_of_app in Hq as [Hq|Hq]; [done|].
        apply list_elem_of_singleton in Hq as ->. by rewrite E in Hc.
Qed.

(** ** The declared names *)

Lemma wantedVarsOf_perm modDir :
  wantedVarsOf modDir
  ≡ₚ (map_to_list (tfconfig.Variables (LoadModule modDir).1)).*1.
Proof.
  unfold wantedVarsOf. rewrite collectWanted_spec. apply sort_Strings_perm.
Qed.

Lemma elem_of_wantedVarsOf modDir v :
  v ∈ wantedVarsOf modDir
  <-> is_Some (tfconfig.Variables (LoadModule modDir).1 !! v).
Proof.
  rewrite wantedVarsOf_perm, list_elem_of_fmap. split.
  - intros ([k x] & -> & H). apply elem_of_map_to_list in H. simpl. eauto.
  - intros [x H]. exists (v, x). split; [done|]. by apply elem_of_map_to_list.
Qed.

Lemma elem_of_wantedVarsSetOf modDir v :
  v ∈ wantedVarsSetOf modDir
  <-> is_Some (tfconfig.Variables (LoadModule modDir).1 !! v).
Proof.
  rewrite <- elem_of_wantedVarsOf, wantedVarsOf_perm.
  unfold wantedVarsSetOf. rewrite collectWanted_spec. simpl.
  apply elem_of_list_to_set.
Qed.

Lemma wantedVarsOf_NoDup modDir : NoDup (wantedVarsOf modDir).
Proof. rewrite wantedVarsOf_perm. apply NoDup_fst_map_to_list. Qed.

Lemma wantedVarsOf_sorted modDir : StronglySorted string_lt (wantedVarsOf modDir).
Proof.
  apply StronglySorted_le_NoDup_lt; [|apply wantedVarsOf_NoDup].
  apply sort_Strings_sorted.
Qed.

(** ** The run as a whole *)

(** A run that reaches [WriteTo] has loaded the module and gone through
    every file argument without an error diagnostic, and hands over the
    spans of its outline. *)
Lemma main_wrote cmd dest doc :
  wrote (main cmd) = Some (dest, doc) ->
  exists modDir varFilePaths,
    versionP cmd = false /\ args cmd = modDir :: varFilePaths
    /\ anyError (LoadModule modDir).2 = false
    /\ anyError (diags (finalState modDir varFilePaths)) = false
    /\ dest = outP cmd /\ doc = spans (outline cmd).
Proof.
  unfold main, outline. destruct (versionP cmd); [done|].
  destruct (args cmd) as [|modDir varFilePaths]; [done|].
  intros H. exists modDir, varFilePaths. revert H.
  unfold finalState, wantedVarsOf, wantedVarsSetOf.
  destruct (LoadModule modDir) as [mod_ moreDiags]. simpl.
  unfold exitIfErrors at 1. destruct (anyError moreDiags) eqn:E0; [done|].
  destruct (collectWanted _) as [wantedVars wantedVarsSet]. simpl.
  unfold exitIfErrors. destruct (anyError (diags _)) eqn:E1; [done|].
  rewrite <- emit_spans. intros H.
  destruct (String.eqb (outP cmd) "-").
  - unfold writeOut in H. simpl in H. by simplify_eq.
  - destruct (Create (outP cmd)); [done|].
    unfold writeOut in H. simpl in H. by simplify_eq.
Qed.

(** An error from the module loader ends the run before any file argument
    is looked at. *)
Lemma main_discovery_abort cmd modDir varFilePaths :
  versionP cmd = false -> args cmd = modDir :: varFilePaths ->
  anyError (LoadModule modDir).2 = true ->
  main cmd
  = {| stdout := ""; stderr := showDiags (LoadModule modDir).2; status := 1;
       opened := []; created := []; wrote := None |}.
Proof.
  intros Hv Ha He. unfold main. rewrite Hv, Ha.
  destruct (LoadModule modDir) as [mod_ moreDiags]. simpl in *.
  unfold exitIfErrors. by rewrite He.
Qed.

(** An error from a file argument ends the run after the loop over all of
    them. *)
Lemma main_parse_abort cmd modDir varFilePaths :
  versionP cmd = false -> args cmd = modDir :: varFilePaths ->
  anyError (LoadModule modDir).2 = false ->
  anyError (diags (finalState modDir varFilePaths)) = true ->
  main cmd
  = {| stdout := "";
       stderr := showDiags (diags (finalState modDir varFilePaths));
       status := 1;
       opened := reads (finalState modDir varFilePaths);
       created := []; wrote := None |}.
Proof.
  intros Hv Ha H0 H1. unfold main. rewrite Hv, Ha.
  revert H0 H1. unfold finalState, wantedVarsSetOf.
  destruct (LoadModule modDir) as [mod_ moreDiags]. simpl.
  intros H0. unfold exitIfErrors at 1. rewrite H0.
  destruct (collectWanted _) as [wantedVars wantedVarsSet]. simpl.
  intros H1. unfold exitIfErrors. by rewrite H1.
Qed.

(** A run without an error diagnostic, and with an output that opens and
    takes the document, ends with status 0 after showing its warnings. *)
Lemma main_success cmd modDir varFilePaths :
  versionP cmd = false -> args cmd = modDir :: varFilePaths ->
  anyError (diags (finalState modDir varFilePaths)) = false ->
  (outP cmd = "-" \/ Create (outP cmd) = None) ->
  WriteTo (outP cmd) (spans (outline cmd)) = None ->
  status (main cmd) = 0
  /\ stderr (main cmd) = showDiags (diags (finalState modDir varFilePaths))
  /\ wrote (main cmd) = Some (outP cmd, spans (outline cmd)).
Proof.
  intros Hv Ha H1 Hc Hw. revert Hw. unfold main, outline. rewrite Hv, Ha.
  revert H1. unfold finalState, wantedVarsOf, wantedVarsSetOf.
  destruct (LoadModule modDir) as [mod_ moreDiags]. simpl.
  intros H1.
  assert (anyError moreDiags = false) as H0.
  { rewrite processFiles_diags in H1. simpl in H1.
    rewrite anyError_app in H1. by apply orb_false_iff in H1 as [? _]. }
  unfold exitIfErrors at 1 3 5. rewrite H0.
  destruct (collectWanted _) as [wantedVars wantedVarsSet]. simpl.
  revert H1. simpl. intros H1. unfold exitIfErrors. rewrite H1.
  rewrite <- emit_spans. intros Hw.
  assert (forall rd cr,
    let o := writeOut (outP cmd) (emit (sort_Strings wantedVars)
               (attrs (processFiles wantedVarsSet
                  {| diags := moreDiags; attrs := ∅; reads := [] |} varFilePaths)))
               (diags (processFiles wantedVarsSet
                  {| diags := moreDiags; attrs := ∅; reads := [] |} varFilePaths))
               rd cr in
    status o = 0
    /\ stderr o = showDiags (diags (processFiles wantedVarsSet
                  {| diags := moreDiags; attrs := ∅; reads := [] |} varFilePaths))
    /\ wrote o = Some (outP cmd, emit (sort_Strings wantedVars)
               (attrs (processFiles wantedVarsSet
                  {| diags := moreDiags; attrs := ∅; reads := [] |} varFilePaths))))
    as Hwo.
  { intros rd cr. unfold writeOut. rewrite Hw. simpl. by rewrite H1. }
  destruct (String.eqb_spec (outP cmd) "-") as [Heq|Hne]; [apply Hwo|].
  destruct Hc as [Hc|Hc]; [done|]. rewrite Hc. apply Hwo.
Qed.

Lemma finalState_diags modDir varFilePaths :
  diags (finalState modDir varFilePaths)
  = (LoadModule modDir).2 ++ mjoin (fileDiags <$> varFilePaths).
Proof. unfold finalState. by rewrite processFiles_diags. Qed.

Lemma finalState_no_error modDir varFilePaths :
  anyError (diags (finalState modDir varFilePaths)) = false ->
  anyError (LoadModule modDir).2 = false.
Proof.
  rewrite finalState_diags, anyError_app. intros H.
  by apply orb_false_iff in H as [? _].
Qed.

Lemma finalState_reads modDir varFilePaths :
  reads (finalState modDir varFilePaths)
  = filter (fun p => HasSuffix p ".json" = false) varFilePaths.
Proof. unfold finalState. by rewrite processFiles_reads. Qed.

(** The end of a run whose diagnostics hold no error after the loop. *)
Lemma main_clean cmd modDir varFilePaths :
  versionP cmd = false -> args cmd = modDir :: varFilePaths ->
  anyError (diags (finalState modDir varFilePaths)) = false ->
  main cmd
  = if String.eqb (outP cmd) "-" then
      writeOut (outP cmd) (spans (outline cmd))
        (diags (finalState modDir varFilePaths))
        (reads (finalState modDir varFilePaths)) []
    else
      match Create (outP cmd) with
      | Some err =>
          {| stdout := "";
             stderr :=
               showDiags (diags (finalState modDir varFilePaths)
                          ++ [createDiag (outP cmd) err]);
             status := 1;
             opened := reads (finalState modDir varFilePaths);
             created := [outP cmd]; wrote := None |}
      | None =>
          writeOut (outP cmd) (spans (outline cmd))
            (diags (finalState modDir varFilePaths))
            (reads (finalState modDir varFilePaths)) [outP cmd]
      end.
Proof.
  intros Hv Ha H1. pose proof (finalState_no_error _ _ H1) as H0.
  revert H0 H1. unfold main, outline. rewrite Hv, Ha.
  unfold finalState, wantedVarsOf, wantedVarsSetOf.
  destruct (LoadModule modDir) as [mod_ moreDiags]. simpl.
  intros H0. unfold exitIfErrors at 1. rewrite H0.
  destruct (collectWanted _) as [wantedVars wantedVarsSet]. simpl.
  intros H1. unfold exitIfErrors. rewrite H1. rewrite <- emit_spans.
  destruct (String.eqb (outP cmd) "-"); [done|].
  destruct (Create (outP cmd)) as [err|]; [|done]. simpl. f_equal.
  by rewrite anyError_app, orb_true_r.
Qed.

Lemma writeOut_status out outF ds rd cr :
  anyError ds = false ->
  status (writeOut out outF ds rd cr) = 0 <-> WriteTo out outF = None.
Proof.
  intros H. unfold writeOut. simpl. destruct (WriteTo out outF) as [err|]; simpl.
  - rewrite anyError_app, orb_true_r. done.
  - by rewrite H.
Qed.


(** ** The outline of a run *)

Lemma elem_of_outline cmd modDir varFilePaths n a :
  args cmd = modDir :: varFilePaths ->
  (n, a) ∈ outline cmd
  <-> is_Some (tfconfig.Variables (LoadModule modDir).1 !! n)
      /\ attrs (finalState modDir varFilePaths) !! n = Some a.
Proof.
  intros Ha. unfold outline. rewrite Ha, elem_of_emitted, elem_of_wantedVarsOf.
  done.
Qed.

Lemma outline_sorted cmd : StronglySorted string_lt (outline cmd).*1.
Proof.
  unfold outline. destruct (args cmd) as [|modDir varFilePaths]; [constructor|].
  rewrite emitted_names. apply StronglySorted_filter_lt, wantedVarsOf_sorted.
Qed.

Lemma finalState_lookup_declared modDir varFilePaths n :
  is_Some (attrs (finalState modDir varFilePaths) !! n) ->
  is_Some (tfconfig.Variables (LoadModule modDir).1 !! n).
Proof.
  intros H. apply elem_of_wantedVarsSetOf.
  destruct (decide (n ∈ wantedVarsSetOf modDir)) as [|Hn]; [done|].
  unfold finalState in H. rewrite processFiles_unwanted in H by done.
  simpl in H. rewrite lookup_empty in H. by destruct H.
Qed.

Lemma elem_of_outline_names cmd modDir varFilePaths n :
  args cmd = modDir :: varFilePaths ->
  n ∈ (outline cmd).*1
  <-> is_Some (attrs (finalState modDir varFilePaths) !! n).
Proof.
  intros Ha. rewrite list_elem_of_fmap. split.
  - intros ([k a] & -> & H). apply (elem_of_outline _ _ _ _ _ Ha) in H as [_ H].
    simpl. eauto.
  - intros [a H]. exists (n, a). split; [done|].
    apply (elem_of_outline _ _ _ _ _ Ha). split; [|done].
    eapply finalState_lookup_declared. eauto.
Qed.

(** The place of a name in the outline: once, with its entry of the map. *)
Lemma outline_split cmd n a :
  (n, a) ∈ outline cmd ->
  exists l1 l2, outline cmd = l1 ++ (n, a) :: l2 /\ (n ∉ l1.*1) /\ (n ∉ l2.*1).
Proof.
  intros H. apply list_elem_of_split in H as (l1 & l2 & E).
  exists l1, l2. split; [done|].
  pose proof (StronglySorted_lt_NoDup _ (outline_sorted cmd)) as Hnd.
  rewrite E, fmap_app, fmap_cons in Hnd. simpl in Hnd.
  apply NoDup_app in Hnd as (_ & H1 & H2). apply NoDup_cons in H2 as [H2 _].
  split; [|done]. intros Hn. apply (H1 n Hn). apply elem_of_cons. by left.
Qed.

(** ** The claims *)

(** C1 (amended: last-wins law).  When a run writes its document, a
    declared name [v] defined by file argument [A] and by a later file
    argument [B], with no definition in the arguments after [B], has
    exactly one place in the document, and that place holds the token
    span of [B]'s definition as it is: the document handed to the writer
    is the spans of other names, then the span of [B]'s definition, then
    the spans of other names.  [A]'s definition is in the outline only if
    it is [B]'s.  What is written is these tokens after the formatter:
    for every formatter that leaves the content of the tokens, the bytes
    written are those of tokens with the content of the other spans, then
    of tokens with the content of [B]'s span, token for token, then of
    tokens with the content of the other spans; the white space before
    each token is the formatter's. *)
Theorem last_file_wins cmd dest doc modDir pre A mid B post v mA aA mB aB :
  wrote (main cmd) = Some (dest, doc) ->
  args cmd = modDir :: pre ++ A :: mid ++ B :: post ->
  is_Some (tfconfig.Variables (LoadModule modDir).1 !! v) ->
  contribution A = Some mA -> mA !! v = Some aA ->
  contribution B = Some mB -> mB !! v = Some aB ->
  (forall p m, p ∈ post -> contribution p = Some m -> m !! v = None) ->
  (exists l1 l2,
     outline cmd = l1 ++ (v, aB) :: l2 /\ (v ∉ l1.*1) /\ (v ∉ l2.*1)
     /\ doc = spans l1 ++ hclwrite.attrTokens aB ++ spans l2
     /\ (forall format : hclwrite.Tokens -> hclwrite.Tokens,
           (forall ts : hclwrite.Tokens,
              hclwrite.tokenContent <$> format ts
              = hclwrite.tokenContent <$> ts) ->
           exists t1 tB t2,
             hclwrite.FileBytes format doc
             = hclwrite.TokensBytes t1 +:+ hclwrite.TokensBytes tB
               +:+ hclwrite.TokensBytes t2
             /\ hclwrite.tokenContent <$> t1
                = hclwrite.tokenContent <$> spans l1
             /\ hclwrite.tokenContent <$> tB
                = hclwrite.tokenContent <$> hclwrite.attrTokens aB
             /\ hclwrite.tokenContent <$> t2
                = hclwrite.tokenContent <$> spans l2))
  /\ ((v, aA) ∈ outline cmd -> aA = aB).
Proof.
  intros Hw Ha Hv HA HaA HB HaB Hpost.
  apply main_wrote in Hw as (? & ? & _ & Ha' & _ & _ & _ & ->).
  assert (attrs (finalState modDir (pre ++ A :: mid ++ B :: post)) !! v = Some aB)
    as Hlast.
  { unfold finalState.
    replace (pre ++ A :: mid ++ B :: post) with ((pre ++ A :: mid) ++ B :: post)
      by (by rewrite <- app_assoc).
    eapply processFiles_last; eauto. by apply elem_of_wantedVarsSetOf. }
  assert ((v, aB) ∈ outline cmd) as Hin.
  { apply (elem_of_outline _ _ _ _ _ Ha). done. }
  split.
  - destruct (outline_split _ _ _ Hin) as (l1 & l2 & E & H1 & H2).
    exists l1, l2. split; [done|]. split; [done|]. split; [done|].
    assert (spans (outline cmd)
            = spans l1 ++ hclwrite.attrTokens aB ++ spans l2) as Hdoc
      by (by rewrite E, spans_app, spans_cons).
    split; [done|]. intros format Hf. rewrite Hdoc.
    by apply FileBytes_parts.
  - intros HinA. apply (elem_of_outline _ _ _ _ _ Ha) in HinA as [_ HinA].
    congruence.
Qed.


(** C3 (order of the output).  When a run writes its document, the
    attributes of the document are in strictly ascending order of name,
    in the order of Go's [<] on strings; and the names, in their order,
    are the same for every run on the same module with the same file
    arguments in another order.  (That the order in which a [range]
    yields the entries of a map does not show either is
    [sort_Strings_order] and [mergeAttrs_order].) *)
Theorem output_sorted_by_name cmd dest doc modDir varFilePaths :
  wrote (main cmd) = Some (dest, doc) ->
  args cmd = modDir :: varFilePaths ->
  doc = spans (outline cmd)
  /\ StronglySorted string_lt (outline cmd).*1
  /\ (forall cmd' varFilePaths',
        args cmd' = modDir :: varFilePaths' ->
        varFilePaths' ≡ₚ varFilePaths ->
        (outline cmd').*1 = (outline cmd).*1).
Proof.
  intros Hw Ha.
  apply main_wrote in Hw as (? & ? & _ & _ & _ & _ & _ & ->).
  split; [done|]. split; [apply outline_sorted|].
  intros cmd' varFilePaths' Ha' Hp. unfold outline. rewrite Ha, Ha'.
  rewrite !emitted_names. apply list_filter_iff. intros n.
  unfold finalState. rewrite !processFiles_is_Some.
  split; (intros [H|(Hn & p & m & Hin & H)]; [by left|right]);
    (split; [done|]); exists p, m; (split; [|done]).
  - by rewrite <- Hp.
  - by rewrite Hp.
Qed.

(** C4 (amended: where a run with an error ends).  An error diagnostic
    from the module loader ends the run at once: its diagnostics are shown,
    the status is 1, and no file argument is read.  An error diagnostic
    from a file argument does not end the loop: every file argument is
    still gone through, the ones after it included, and after the last
    one the diagnostics of the loader and of all the file arguments are
    shown and the run ends with status 1.  In both cases nothing is
    created and nothing is written. *)
Theorem errors_abort_at_checkpoints cmd modDir varFilePaths :
  versionP cmd = false ->
  args cmd = modDir :: varFilePaths ->
  (anyError (LoadModule modDir).2 = true ->
     main cmd
     = {| stdout := ""; stderr := showDiags (LoadModule modDir).2; status := 1;
          opened := []; created := []; wrote := None |})
  /\ (anyError (LoadModule modDir).2 = false ->
      anyError (mjoin (fileDiags <$> varFilePaths)) = true ->
      main cmd
      = {| stdout := "";
           stderr :=
             showDiags ((LoadModule modDir).2 ++ mjoin (fileDiags <$> varFilePaths));
           status := 1;
           opened := filter (fun p => HasSuffix p ".json" = false) varFilePaths;
           created := []; wrote := None |}).
Proof.
  intros Hv Ha. split.
  - intros He. by apply (main_discovery_abort cmd modDir varFilePaths).
  - intros H0 H1. rewrite (main_parse_abort cmd modDir varFilePaths); try done.
    + rewrite finalState_diags. unfold finalState.
      by rewrite processFiles_reads.
    + by rewrite finalState_diags, anyError_app, H1, orb_true_r.
Qed.

(** C5 (no JSON input).  A file argument whose path ends in [.json] adds
    one diagnostic, of severity error, with summary "JSON tfvars not
    supported" and a detail that names the path; it is not handed to
    [ioutil.ReadFile], it leaves the map as it is and it brings nothing to
    the merge.  In a run that gets past the module loader the path is not
    among those read (unless it is given a second time under a name that
    does not end in [.json], which is another path), the diagnostic is
    among those shown, the status is 1 and nothing is written. *)
Theorem json_file_rejected cmd modDir varFilePaths p :
  versionP cmd = false ->
  args cmd = modDir :: varFilePaths ->
  anyError (LoadModule modDir).2 = false ->
  p ∈ varFilePaths ->
  HasSuffix p ".json" = true ->
  (forall S st,
     processFile S st p
     = {| diags := diags st ++ [jsonDiag p]; attrs := attrs st; reads := reads st |})
  /\ tfconfig.Severity (jsonDiag p) = tfconfig.DiagError
  /\ tfconfig.Summary (jsonDiag p) = "JSON tfvars not supported"
  /\ tfconfig.Detail (jsonDiag p)
     = "Can't read " +:+ p +:+ ": only native syntax .tfvars files are supported."
  /\ contribution p = None
  /\ (p ∉ opened (main cmd))
  /\ (exists ds1 ds2, stderr (main cmd) = showDiags (ds1 ++ jsonDiag p :: ds2))
  /\ status (main cmd) = 1
  /\ wrote (main cmd) = None.
Proof.
  intros Hv Ha H0 Hin Hj.
  assert (fileDiags p = [jsonDiag p]) as Hfd.
  { unfold fileDiags. by rewrite Hj. }
  assert (anyError (diags (finalState modDir varFilePaths)) = true) as H1.
  { rewrite finalState_diags, anyError_app.
    apply orb_true_iff. right. apply existsb_exists. exists (jsonDiag p).
    split; [|done]. apply list_elem_of_In, list_elem_of_join.
    exists (fileDiags p). split; [rewrite Hfd; by apply list_elem_of_singleton|].
    apply list_elem_of_fmap. eauto. }
  rewrite (main_parse_abort cmd modDir varFilePaths) by done. simpl.
  split; [intros S st; unfold processFile; by rewrite Hj|].
  do 3 (split; [done|]).
  split; [unfold contribution; by rewrite Hj|].
  split.
  { unfold finalState. rewrite processFiles_reads. simpl.
    intros H. apply list_elem_of_filter in H as [H _]. congruence. }
  split; [|done].
  rewrite finalState_diags.
  apply list_elem_of_split in Hin as (l1 & l2 & ->).
  exists ((LoadModule modDir).2 ++ mjoin (fileDiags <$> l1)),
         (mjoin (fileDiags <$> l2)).
  rewrite fmap_app, join_app, fmap_cons. simpl. rewrite Hfd. simpl.
  by rewrite <- app_assoc.
Qed.

(** C7 (unused-declared law).  A declared name that no file argument
    defines has no place in the outline of the run, so none in the
    document.  The diagnostics after the loop are those of the loader and
    those of the file arguments, nothing else; and when none of them is an
    error and the output opens and takes the document, the run ends with
    status 0 after writing the spans of the outline. *)
Theorem declared_but_undefined_omitted cmd modDir varFilePaths v :
  versionP cmd = false ->
  args cmd = modDir :: varFilePaths ->
  is_Some (tfconfig.Variables (LoadModule modDir).1 !! v) ->
  (forall p m, p ∈ varFilePaths -> contribution p = Some m -> m !! v = None) ->
  (v ∉ (outline cmd).*1)
  /\ diags (finalState modDir varFilePaths)
     = (LoadModule modDir).2 ++ mjoin (fileDiags <$> varFilePaths)
  /\ (anyError (diags (finalState modDir varFilePaths)) = false ->
      outP cmd = "-" \/ Create (outP cmd) = None ->
      WriteTo (outP cmd) (spans (outline cmd)) = None ->
      status (main cmd) = 0
      /\ stderr (main cmd) = showDiags (diags (finalState modDir varFilePaths))
      /\ wrote (main cmd) = Some (outP cmd, spans (outline cmd))).
Proof.
  intros Hv Ha Hd Hu. split; [|split].
  - rewrite (elem_of_outline_names _ _ _ _ Ha). unfold finalState.
    rewrite processFiles_undefined by done. simpl. rewrite lookup_empty.
    by intros [? ?].
  - apply finalState_diags.
  - intros H1 Hc Hw. by apply (main_success cmd modDir varFilePaths).
Qed.

(** C9 (warnings do not fail a run).  A file argument whose parse gives
    warnings only is merged like one without diagnostics: each of its
    attributes under a declared name becomes the entry of that name, and
    with no definition of the name in the later file arguments it is the
    attribute of that name in the outline.  Its diagnostics are warnings,
    so they leave the test for an error as it was; and a run whose
    diagnostics are all warnings, with an output that opens and takes the
    document, ends with status 0. *)
Theorem warnings_only_file_is_merged
    cmd modDir pre p post src varFile hclDiags :
  versionP cmd = false ->
  args cmd = modDir :: pre ++ p :: post ->
  HasSuffix p ".json" = false ->
  ReadFile p = inl src ->
  ParseConfig src p = (varFile, hclDiags) ->
  Forall (fun d => hcl.Severity d = hcl.DiagWarning) hclDiags ->
  (forall S st,
     attrs (processFile S st p)
     = mergeAttrs S (attrs st) (map_to_list (Attributes varFile))
     /\ diags (processFile S st p) = diags st ++ (convertHCLDiag <$> hclDiags)
     /\ anyError (diags (processFile S st p)) = anyError (diags st)
     /\ (forall k a, k ∈ S -> Attributes varFile !! k = Some a ->
           attrs (processFile S st p) !! k = Some a))
  /\ Forall (fun d => isWarning d = true) (convertHCLDiag <$> hclDiags)
  /\ (forall k a,
        is_Some (tfconfig.Variables (LoadModule modDir).1 !! k) ->
        Attributes varFile !! k = Some a ->
        (forall q m, q ∈ post -> contribution q = Some m -> m !! k = None) ->
        (k, a) ∈ outline cmd)
  /\ (Forall (fun d => isWarning d = true)
        (diags (finalState modDir (pre ++ p :: post))) ->
      outP cmd = "-" \/ Create (outP cmd) = None ->
      WriteTo (outP cmd) (spans (outline cmd)) = None ->
      status (main cmd) = 0
      /\ wrote (main cmd) = Some (outP cmd, spans (outline cmd))).
Proof.
  intros Hv Ha Hj Hr Hp Hw.
  assert (Forall (fun d => isWarning d = true) (convertHCLDiag <$> hclDiags))
    as Hws.
  { apply Forall_fmap. eapply Forall_impl; [exact Hw|].
    intros d Hd. unfold isWarning, convertHCLDiag. simpl. by rewrite Hd. }
  assert (hcl.HasErrors hclDiags = false) as Hne.
  { rewrite HasErrors_convert. by apply warnings_no_error. }
  assert (contribution p = Some (Attributes varFile)) as Hc.
  { unfold contribution. by rewrite Hj, Hr, Hp, Hne. }
  assert (fileDiags p = convertHCLDiag <$> hclDiags) as Hfd.
  { unfold fileDiags. by rewrite Hj, Hr, Hp. }
  split; [|split; [done|split]].
  - intros S st. split; [by rewrite processFile_attrs, Hc|].
    split; [by rewrite processFile_diags, Hfd|].
    split.
    + rewrite processFile_diags, Hfd, anyError_app.
      rewrite (warnings_no_error _ Hws). apply orb_false_r.
    + intros k a Hk Hka. rewrite processFile_lookup, Hc. simpl.
      rewrite Hka. by rewrite decide_True.
  - intros k a Hk Hka Hpost. apply (elem_of_outline _ _ _ _ _ Ha).
    split; [done|]. unfold finalState.
    eapply processFiles_last; eauto. by apply elem_of_wantedVarsSetOf.
  - intros Hall Hcr Hwr.
    destruct (main_success cmd modDir (pre ++ p :: post)) as (? & _ & ?);
      try done.
    by apply warnings_no_error.
Qed.

(** C10 (what the document defines).  When a run writes its document, a
    declared name has an attribute in the document exactly when some file
    argument that was read and parsed without error defines it; and one
    more file argument never takes a name out of the map: an entry is
    replaced or kept. *)
Theorem defined_iff_some_file_defines cmd dest doc modDir varFilePaths v :
  wrote (main cmd) = Some (dest, doc) ->
  args cmd = modDir :: varFilePaths ->
  is_Some (tfconfig.Variables (LoadModule modDir).1 !! v) ->
  doc = spans (outline cmd)
  /\ (v ∈ (outline cmd).*1
      <-> exists p m,
            p ∈ varFilePaths /\ contribution p = Some m /\ is_Some (m !! v))
  /\ (forall S st p,
        is_Some (attrs st !! v) -> is_Some (attrs (processFile S st p) !! v))
  /\ (forall S st p a,
        attrs st !! v = Some a ->
        attrs (processFile S st p) !! v = Some a
        \/ exists m b, contribution p = Some m /\ m !! v = Some b
                       /\ attrs (processFile S st p) !! v = Some b).
Proof.
  intros Hw Ha Hv.
  apply main_wrote in Hw as (? & ? & _ & _ & _ & _ & _ & ->).
  split; [done|]. split; [|split].
  - rewrite (elem_of_outline_names _ _ _ _ Ha). unfold finalState.
    rewrite processFiles_is_Some. simpl. rewrite lookup_empty. split.
    + intros [[? ?]|[_ H]]; done.
    + intros H. right. split; [|done]. by apply elem_of_wantedVarsSetOf.
  - intros S st p. apply processFile_mono.
  - intros S st p a Hs. rewrite processFile_lookup.
    destruct (contribution p) as [m|] eqn:E; simpl; [|by left].
    destruct (m !! v) as [b|] eqn:Eb; [|by left].
    case_decide; [|by left]. right. exists m, b. done.
Qed.

(** ** More on one file argument and on the loop *)

Lemma contribution_None_error p :
  contribution p = None -> anyError (fileDiags p) = true.
Proof.
  intros Hc. destruct (anyError (fileDiags p)) eqn:E; [done|].
  apply fileDiags_no_error in E as [m E]. by rewrite E in Hc.
Qed.

Lemma processFiles_nil S st : processFiles S st [] = st.
Proof. done. Qed.

Lemma processFiles_cons S st p ps :
  processFiles S st (p :: ps) = processFiles S (processFile S st p) ps.
Proof. done. Qed.

Lemma processFiles_attrs_ext S st1 st2 ps :
  attrs st1 = attrs st2 ->
  attrs (processFiles S st1 ps) = attrs (processFiles S st2 ps).
Proof.
  intros H. induction ps as [|p ps IH] using rev_ind; [done|].
  by rewrite !processFiles_snoc, !processFile_attrs, IH.
Qed.

Lemma processFiles_provenance S st ps k a :
  attrs (processFiles S st ps) !! k = Some a ->
  attrs st !! k = Some a
  \/ (k ∈ S /\ exists p m, p ∈ ps /\ contribution p = Some m /\ m !! k = Some a).
Proof.
  induction ps as [|p ps IH] using rev_ind; [by left|].
  rewrite processFiles_snoc, processFile_lookup.
  assert (attrs (processFiles S st ps) !! k = Some a ->
          attrs st !! k = Some a
          \/ (k ∈ S /\ exists q m,
                q ∈ ps ++ [p] /\ contribution q = Some m /\ m !! k = Some a))
    as IH'.
  { intros H. destruct (IH H) as [?|(Hk & q & m & Hq & Hc & Hm)]; [by left|].
    right. split; [done|]. exists q, m. split; [by apply elem_of_snoc_l|done]. }
  destruct (contribution p) as [m|] eqn:E; simpl; [|done].
  destruct (m !! k) as [b|] eqn:Eb; [|done].
  case_decide as Hk; [|done]. intros [= ->]. right. split; [done|].
  exists p, m. split; [apply elem_of_snoc_r|done].
Qed.

(** ** More properties of the program *)

(** X5 (the file loop, lines 86 to 101).  What a file argument does to the
    map: when it is read and parses without error, the map becomes the
    declared attributes of the file laid over the map as it was, the file
    winning on the names both have; otherwise the map stays as it was. *)
Theorem processFile_overlays S st p :
  attrs (processFile S st p)
  = match contribution p with
    | Some m => filter (fun kv => kv.1 ∈ S) m ∪ attrs st
    | None => attrs st
    end.
Proof.
  rewrite processFile_attrs. destruct (contribution p); [|done].
  apply mergeAttrs_union.
Qed.

(** X6 (the file loop).  A file argument given twice in a row brings what
    it brings once: the attributes the run appends are the same. *)
Theorem repeated_file_changes_nothing cmd cmd' modDir pre p post :
  args cmd = modDir :: pre ++ p :: p :: post ->
  args cmd' = modDir :: pre ++ p :: post ->
  outline cmd = outline cmd'.
Proof.
  intros Ha Ha'. unfold outline. rewrite Ha, Ha'. f_equal.
  unfold finalState.
  rewrite (processFiles_app _ _ pre (p :: p :: post)).
  rewrite (processFiles_app _ _ pre (p :: post)).
  change (p :: p :: post) with ([p; p] ++ post).
  change (p :: post) with ([p] ++ post).
  rewrite !processFiles_app. apply processFiles_attrs_ext.
  generalize (processFiles (wantedVarsSetOf modDir)
                {| diags := [] ++ (LoadModule modDir).2; attrs := ∅; reads := [] |}
                pre).
  intros st. rewrite !processFiles_cons, !processFiles_nil.
  apply map_eq. intros k.
  rewrite (processFile_lookup _ (processFile _ st p) p k).
  destruct (contribution p ≫= (fun m => m !! k)) as [a|] eqn:E; [|done].
  case_decide; [|done]. rewrite processFile_lookup, E. by rewrite decide_True.
Qed.

(** X7 (the file loop).  The order of two neighbouring file arguments
    shows in the document only through a declared name that both define:
    when no declared name is defined by both, the attributes the run
    appends are the same in either order. *)
Theorem neighbours_commute_unless_both_define cmd cmd' modDir pre p q post :
  args cmd = modDir :: pre ++ p :: q :: post ->
  args cmd' = modDir :: pre ++ q :: p :: post ->
  (forall k,
     is_Some (tfconfig.Variables (LoadModule modDir).1 !! k) ->
     contribution p ≫= (fun m => m !! k) = None
     \/ contribution q ≫= (fun m => m !! k) = None) ->
  outline cmd = outline cmd'.
Proof.
  intros Ha Ha' Hd. unfold outline. rewrite Ha, Ha'. f_equal.
  unfold finalState.
  rewrite (processFiles_app _ _ pre (p :: q :: post)).
  rewrite (processFiles_app _ _ pre (q :: p :: post)).
  change (p :: q :: post) with ([p; q] ++ post).
  change (q :: p :: post) with ([q; p] ++ post).
  rewrite !processFiles_app. apply processFiles_attrs_ext.
  generalize (processFiles (wantedVarsSetOf modDir)
                {| diags := [] ++ (LoadModule modDir).2; attrs := ∅; reads := [] |}
                pre).
  intros st. rewrite !processFiles_cons, !processFiles_nil.
  apply map_eq. intros k. rewrite !processFile_lookup.
  destruct (decide (k ∈ wantedVarsSetOf modDir)) as [Hk|Hk].
  - apply elem_of_wantedVarsSetOf in Hk. destruct (Hd k Hk) as [E|E]; rewrite E.
    + done.
    + by destruct (contribution p ≫= _).
  - destruct (contribution p ≫= _), (contribution q ≫= _); done.
Qed.

Lemma anyError_fileDiags_elem p ps :
  p ∈ ps -> anyError (fileDiags p) = true ->
  anyError (mjoin (fileDiags <$> ps)) = true.
Proof.
  intros Hin He. apply list_elem_of_split in Hin as (l1 & l2 & ->).
  rewrite fmap_app, join_app, fmap_cons. simpl.
  by rewrite !anyError_app, He, orb_true_r.
Qed.

(** X8 (lines 62 to 90 and 103).  No file argument is left out of a run in
    silence: when one of them brings nothing to the merge, because its
    path ends in [.json], because it cannot be read or because its parse
    has an error, the run ends with status 1 and neither creates nor
    writes an output. *)
Theorem skipped_file_fails_run cmd modDir varFilePaths p :
  versionP cmd = false ->
  args cmd = modDir :: varFilePaths ->
  p ∈ varFilePaths ->
  contribution p = None ->
  status (main cmd) = 1 /\ created (main cmd) = [] /\ wrote (main cmd) = None.
Proof.
  intros Hv Ha Hin Hc.
  destruct (anyError (LoadModule modDir).2) eqn:E0.
  - by rewrite (main_discovery_abort cmd modDir varFilePaths).
  - rewrite (main_parse_abort cmd modDir varFilePaths); try done.
    rewrite finalState_diags, anyError_app, E0. simpl.
    eapply anyError_fileDiags_elem; [done|]. by apply contribution_None_error.
Qed.

(** X9 ([main] from line 29 on).  Once [flag.Parse] has returned, with the
    flags and arguments of [cmd] and without the version flag, the run
    ends with status 0 exactly when it has a module directory argument,
    the loader and the file arguments give no error diagnostic, the output
    is standard output or can be created, and the document is written
    without error.  (A run that [flag.Parse] ends itself, as for a help
    flag, is not a run of this model.) *)
Theorem status_zero_iff cmd :
  versionP cmd = false ->
  status (main cmd) = 0
  <-> exists modDir varFilePaths,
        args cmd = modDir :: varFilePaths
        /\ anyError (diags (finalState modDir varFilePaths)) = false
        /\ (outP cmd = "-" \/ Create (outP cmd) = None)
        /\ WriteTo (outP cmd) (spans (outline cmd)) = None.
Proof.
  intros Hv. split.
  - intros Hs. destruct (args cmd) as [|modDir varFilePaths] eqn:Ha.
    { unfold main in Hs. by rewrite Hv, Ha in Hs. }
    exists modDir, varFilePaths. split; [done|].
    destruct (anyError (LoadModule modDir).2) eqn:E0.
    { by rewrite (main_discovery_abort cmd modDir varFilePaths) in Hs. }
    destruct (anyError (diags (finalState modDir varFilePaths))) eqn:E1.
    { by rewrite (main_parse_abort cmd modDir varFilePaths) in Hs. }
    split; [done|]. rewrite (main_clean cmd modDir varFilePaths) in Hs by done.
    destruct (String.eqb_spec (outP cmd) "-") as [Heq|Hne].
    + split; [by left|]. by apply writeOut_status in Hs.
    + destruct (Create (outP cmd)) as [err|]; [done|].
      split; [by right|]. by apply writeOut_status in Hs.
  - intros (modDir & varFilePaths & Ha & H1 & Hc & Hw).
    by destruct (main_success cmd modDir varFilePaths) as (? & _).
Qed.

(** X10 (lines 125 to 135).  When the output cannot be created, the
    document is not handed to [WriteTo]; the run shows the diagnostics
    collected so far, warnings that they are, then the one for the output,
    and ends with status 1. *)
Theorem create_failure_ends_run cmd modDir varFilePaths err :
  versionP cmd = false ->
  args cmd = modDir :: varFilePaths ->
  anyError (diags (finalState modDir varFilePaths)) = false ->
  outP cmd <> "-" ->
  Create (outP cmd) = Some err ->
  main cmd
  = {| stdout := "";
       stderr :=
         showDiags (diags (finalState modDir varFilePaths))
         +:+ showDiag (createDiag (outP cmd) err);
       status := 1;
       opened := filter (fun p => HasSuffix p ".json" = false) varFilePaths;
       created := [outP cmd]; wrote := None |}.
Proof.
  intros Hv Ha H1 Hne Hc. rewrite (main_clean cmd modDir varFilePaths) by done.
  apply String.eqb_neq in Hne. rewrite Hne, Hc.
  by rewrite showDiags_snoc, finalState_reads.
Qed.

(** X11 (lines 138 to 146).  When writing the document fails, the run
    shows the diagnostics collected so far, then the one for the write,
    and ends with status 1. *)
Theorem write_failure_ends_run cmd modDir varFilePaths err :
  versionP cmd = false ->
  args cmd = modDir :: varFilePaths ->
  anyError (diags (finalState modDir varFilePaths)) = false ->
  outP cmd = "-" \/ Create (outP cmd) = None ->
  WriteTo (outP cmd) (spans (outline cmd)) = Some err ->
  status (main cmd) = 1
  /\ stderr (main cmd)
     = showDiags (diags (finalState modDir varFilePaths))
       +:+ showDiag (writeDiag (outP cmd) err)
  /\ wrote (main cmd) = Some (outP cmd, spans (outline cmd)).
Proof.
  intros Hv Ha H1 Hc Hw. rewrite (main_clean cmd modDir varFilePaths) by done.
  assert (forall rd cr,
    let o := writeOut (outP cmd) (spans (outline cmd))
               (diags (finalState modDir varFilePaths)) rd cr in
    status o = 1
    /\ stderr o = showDiags (diags (finalState modDir varFilePaths))
                  +:+ showDiag (writeDiag (outP cmd) err)
    /\ wrote o = Some (outP cmd, spans (outline cmd))) as Hwo.
  { intros rd cr. unfold writeOut. rewrite Hw. simpl.
    by rewrite anyError_app, orb_true_r, showDiags_snoc. }
  destruct (String.eqb_spec (outP cmd) "-") as [Heq|Hne]; [apply Hwo|].
  destruct Hc as [Hc|Hc]; [done|]. rewrite Hc. apply Hwo.
Qed.

(** X12 (lines 103 and 121 to 128).  The output is never created for a run
    that shows its version, lacks its module argument or has an error
    diagnostic after the loop over the file arguments, and never for the
    destination [-]: [os.Create] is called at most once, on the path of
    the flag, after the loader and every file argument went through
    without error. *)
Theorem output_created_only_when_clean cmd :
  created (main cmd) = []
  \/ (created (main cmd) = [outP cmd]
      /\ outP cmd <> "-"
      /\ versionP cmd = false
      /\ exists modDir varFilePaths,
           args cmd = modDir :: varFilePaths
           /\ anyError (diags (finalState modDir varFilePaths)) = false).
Proof.
  destruct (versionP cmd) eqn:Hv.
  { left. unfold main. by rewrite Hv. }
  destruct (args cmd) as [|modDir varFilePaths] eqn:Ha.
  { left. unfold main. by rewrite Hv, Ha. }
  destruct (anyError (LoadModule modDir).2) eqn:E0.
  { left. by rewrite (main_discovery_abort cmd modDir varFilePaths). }
  destruct (anyError (diags (finalState modDir varFilePaths))) eqn:E1.
  { left. by rewrite (main_parse_abort cmd modDir varFilePaths). }
  rewrite (main_clean cmd modDir varFilePaths) by done.
  destruct (String.eqb_spec (outP cmd) "-") as [Heq|Hne]; [by left|].
  right. split; [by destruct (Create (outP cmd))|].
  split; [done|]. split; [done|]. by exists modDir, varFilePaths.
Qed.

(** X13 (lines 61 to 84).  In a run that gets past the module loader, the
    paths handed to [ioutil.ReadFile] are the file arguments that do not
    end in [.json], each as often as it is given and in the order of the
    command line, whether the run then fails or succeeds. *)
Theorem files_read_in_argument_order cmd modDir varFilePaths :
  versionP cmd = false ->
  args cmd = modDir :: varFilePaths ->
  anyError (LoadModule modDir).2 = false ->
  opened (main cmd)
  = filter (fun p => HasSuffix p ".json" = false) varFilePaths.
Proof.
  intros Hv Ha H0. rewrite <- (finalState_reads modDir).
  destruct (anyError (diags (finalState modDir varFilePaths))) eqn:E1.
  { by rewrite (main_parse_abort cmd modDir varFilePaths). }
  rewrite (main_clean cmd modDir varFilePaths) by done.
  destruct (String.eqb (outP cmd) "-"); [done|].
  by destruct (Create (outP cmd)).
Qed.

(** X14 (no file argument).  A run with a module directory and no file
    argument writes the empty document, whatever the module declares; it
    shows the warnings of the loader and ends with status 0 when the
    output takes the document. *)
Theorem no_file_arguments cmd modDir :
  versionP cmd = false ->
  args cmd = [modDir] ->
  anyError (LoadModule modDir).2 = false ->
  outP cmd = "-" \/ Create (outP cmd) = None ->
  WriteTo (outP cmd) [] = None ->
  main cmd
  = {| stdout := ""; stderr := showDiags (LoadModule modDir).2; status := 0;
       opened := [];
       created := if String.eqb (outP cmd) "-" then [] else [outP cmd];
       wrote := Some (outP cmd, []) |}.
Proof.
  intros Hv Ha H0 Hc Hw.
  assert (outline cmd = []) as Ho.
  { unfold outline. rewrite Ha. unfold finalState. simpl.
    generalize (wantedVarsOf modDir). intros l. unfold emitted.
    induction l as [|n l IH]; [done|]. simpl. by rewrite lookup_empty. }
  assert (diags (finalState modDir []) = (LoadModule modDir).2) as Hd.
  { rewrite finalState_diags. simpl. by rewrite app_nil_r. }
  rewrite (main_clean cmd modDir []); [|done|done|by rewrite Hd].
  rewrite Ho, Hd. unfold finalState, writeOut. simpl.
  change (spans []) with (@nil hclwrite.Token). rewrite Hw. simpl. rewrite H0.
  destruct (String.eqb_spec (outP cmd) "-") as [Heq|Hne]; [done|].
  destruct Hc as [Hc|Hc]; [done|]. by rewrite Hc.
Qed.

(** X15 (lines 51 to 57).  The two forms in which [main] keeps the
    declared names agree: the sorted slice has each name of the module's
    variables once, and no other, in strictly ascending order, and the set
    has the same names. *)
Theorem wanted_names_consistent modDir :
  StronglySorted string_lt (wantedVarsOf modDir)
  /\ NoDup (wantedVarsOf modDir)
  /\ length (wantedVarsOf modDir)
     = size (tfconfig.Variables (LoadModule modDir).1)
  /\ (forall n, n ∈ wantedVarsOf modDir <-> n ∈ wantedVarsSetOf modDir)
  /\ (forall n,
        n ∈ wantedVarsSetOf modDir
        <-> is_Some (tfconfig.Variables (LoadModule modDir).1 !! n)).
Proof.
  split; [apply wantedVarsOf_sorted|]. split; [apply wantedVarsOf_NoDup|].
  split.
  - rewrite wantedVarsOf_perm, length_fmap. apply length_map_to_list.
  - split; intros n.
    + by rewrite elem_of_wantedVarsOf, elem_of_wantedVarsSetOf.
    + apply elem_of_wantedVarsSetOf.
Qed.

(** X16 (lines 92 to 119).  The document holds nothing of its own: when a
    run writes its document, every attribute in it is, as it stands, the
    definition of its name in some file argument that was read and parsed
    without error. *)
Theorem document_attributes_come_from_files
    cmd dest doc modDir varFilePaths n a :
  wrote (main cmd) = Some (dest, doc) ->
  args cmd = modDir :: varFilePaths ->
  (n, a) ∈ outline cmd ->
  doc = spans (outline cmd)
  /\ exists p m,
       p ∈ varFilePaths /\ contribution p = Some m /\ m !! n = Some a.
Proof.
  intros Hw Ha Hin.
  apply main_wrote in Hw as (? & ? & _ & _ & _ & _ & _ & ->).
  split; [done|].
  apply (elem_of_outline _ _ _ _ _ Ha) in Hin as [_ Hin].
  unfold finalState in Hin.
  apply processFiles_provenance in Hin as [Hin|(_ & p & m & H)].
  - simpl in Hin. by rewrite lookup_empty in Hin.
  - by exists p, m.
Qed.

End Properties.

(** ** Runs with the stand-ins *)

Local Abbreviation demo_main :=
  (main Demo.LoadModule Demo.ReadFile Demo.ParseConfig SpecModel.Attributes
     Demo.Create Demo.WriteTo).
Local Abbreviation demo_outline :=
  (outline Demo.LoadModule Demo.ReadFile Demo.ParseConfig SpecModel.Attributes).
Local Abbreviation demo_finalState :=
  (finalState Demo.LoadModule Demo.ReadFile Demo.ParseConfig SpecModel.Attributes).
Local Abbreviation demo_processFile :=
  (processFile Demo.ReadFile Demo.ParseConfig SpecModel.Attributes).
Local Abbreviation demo_contribution :=
  (contribution Demo.ReadFile Demo.ParseConfig SpecModel.Attributes).

(** The first scenario of the spec, the example of the README. *)
Example readme_example :
  wrote (demo_main (Demo.cmd ["a.tfvars"; "b.tfvars"]))
  = Some ("-", hclwrite.attrTokens (Demo.attr "bar" "b")
               ++ hclwrite.attrTokens (Demo.attr "baz" "b")
               ++ hclwrite.attrTokens (Demo.attr "foo" "a"))
  /\ status (demo_main (Demo.cmd ["a.tfvars"; "b.tfvars"])) = 0.
Proof. split; reflexivity. Qed.

(** The sixth scenario: the other order of the two files, the other
    definition of [bar]. *)
Example readme_example_swapped :
  wrote (demo_main (Demo.cmd ["b.tfvars"; "a.tfvars"]))
  = Some ("-", hclwrite.attrTokens (Demo.attr "bar" "a")
               ++ hclwrite.attrTokens (Demo.attr "baz" "b")
               ++ hclwrite.attrTokens (Demo.attr "foo" "a")).
Proof. reflexivity. Qed.

(** The second scenario: no file argument, an empty document, status 0. *)
Example no_var_files :
  wrote (demo_main (Demo.cmd [])) = Some ("-", [])
  /\ status (demo_main (Demo.cmd [])) = 0.
Proof. split; reflexivity. Qed.

(** The fourth scenario: a module that does not load. *)
Example module_not_found :
  demo_main {| versionP := false; outP := "-"; args := ["nowhere"; "a.tfvars"] |}
  = {| stdout := ""; stderr := showDiag Demo.loadFailed; status := 1;
       opened := []; created := []; wrote := None |}.
Proof. reflexivity. Qed.

(** A file that defines a name twice: the parser's error ends the run. *)
Example redefined_attribute :
  status (demo_main (Demo.cmd ["a.tfvars"; "dup.tfvars"])) = 1
  /\ wrote (demo_main (Demo.cmd ["a.tfvars"; "dup.tfvars"])) = None.
Proof. split; reflexivity. Qed.

(** C8 (how diagnostics are shown).  A run with two file arguments that
    end in [.json] collects two diagnostics and ends with status 1; what
    it writes to standard error is the text of the first immediately
    followed by the text of the second, with no line end between them or
    after them. *)
Theorem diagnostics_run_together :
  status (demo_main (Demo.cmd ["c.json"; "d.json"])) = 1
  /\ stderr (demo_main (Demo.cmd ["c.json"; "d.json"]))
     = showDiag (jsonDiag "c.json") +:+ showDiag (jsonDiag "d.json")
  /\ stderr (demo_main (Demo.cmd ["c.json"; "d.json"]))
     = "Error: JSON tfvars not supported; Can't read c.json: only native syntax .tfvars files are supported.Error: JSON tfvars not supported; Can't read d.json: only native syntax .tfvars files are supported."
  /\ lineEnds (stderr (demo_main (Demo.cmd ["c.json"; "d.json"]))) = 0.
Proof. repeat split; reflexivity. Qed.

(** C4, as the claim has it, fails.  The first file argument ends in
    [.json]: after it the diagnostics hold an error.  The run does not end
    there: the second file argument is read, its attribute is merged into
    the map, and the warning of its parse is shown along with the error. *)
Lemma abort_is_not_immediate :
  let cmd := Demo.cmd ["c.json"; "w.tfvars"] in
  let detected := demo_finalState "module" ["c.json"] in
  anyError (diags detected) = true
  /\ stderr (demo_main cmd) <> showDiags (diags detected)
  /\ opened (demo_main cmd) = ["w.tfvars"]
  /\ attrs detected !! "baz" = None
  /\ attrs (demo_finalState "module" ["c.json"; "w.tfvars"]) !! "baz"
     = Some (Demo.attr "baz" "w")
  /\ status (demo_main cmd) = 1.
Proof.
  cbv zeta. split; [reflexivity|]. split; [|repeat split; reflexivity].
  vm_compute. discriminate.
Qed.

(** C1, as the claim has it, fails.  [alpha] is defined by [a.tfvars] and
    then by [s.tfvars], whose text is [alpha   =   x].  The document
    handed to the writer is the span of that definition, and its bytes as
    they stand are the text of the file; what is written, after the
    formatter, is [alpha = x]: the definition of [s.tfvars], but not
    verbatim. *)
Lemma written_text_is_not_verbatim :
  wrote (main Spaced.LoadModule Spaced.ReadFile Spaced.ParseConfig
           SpecModel.Attributes Demo.Create Demo.WriteTo
           (Spaced.cmd ["a.tfvars"; "s.tfvars"]))
  = Some ("-", hclwrite.attrTokens Spaced.wide)
  /\ contribution Spaced.ReadFile Spaced.ParseConfig SpecModel.Attributes
       "s.tfvars" ≫= (fun m => m !! "alpha") = Some Spaced.wide
  /\ hclwrite.TokensBytes (hclwrite.attrTokens Spaced.wide) = Spaced.wideSrc
  /\ hclwrite.FileBytes Spaced.format (hclwrite.attrTokens Spaced.wide)
     = "alpha = x" +:+ LF
  /\ hclwrite.FileBytes Spaced.format (hclwrite.attrTokens Spaced.wide)
     <> hclwrite.TokensBytes (hclwrite.attrTokens Spaced.wide).
Proof.
  split; [reflexivity|]. split; [reflexivity|]. split; [reflexivity|].
  split; [reflexivity|]. vm_compute. discriminate.
Qed.

(** ** The theorems at work on the stand-ins *)

(** [alpha] is defined by [a.tfvars] and by [s.tfvars]: the definition of
    [s.tfvars] is the document, and with the stand-in for the formatter
    the bytes written are those of tokens with its content. *)
Lemma last_file_wins_witness :
  exists tB,
    hclwrite.FileBytes Spaced.format (hclwrite.attrTokens Spaced.wide)
    = hclwrite.TokensBytes tB
    /\ hclwrite.tokenContent <$> tB
       = hclwrite.tokenContent <$> hclwrite.attrTokens Spaced.wide.
Proof.
  destruct (last_file_wins Spaced.LoadModule Spaced.ReadFile
              Spaced.ParseConfig SpecModel.Attributes Demo.Create Demo.WriteTo
              (Spaced.cmd ["a.tfvars"; "s.tfvars"]) "-"
              (hclwrite.attrTokens Spaced.wide) "module"
              [] "a.tfvars" [] "s.tfvars" [] "alpha"
              {[ "alpha" := Spaced.plain ]} Spaced.plain
              {[ "alpha" := Spaced.wide ]} Spaced.wide)
    as [(l1 & l2 & Hout & _ & _ & _ & Hbytes) _].
  - vm_compute. reflexivity.
  - reflexivity.
  - eexists. vm_compute. reflexivity.
  - vm_compute. reflexivity.
  - vm_compute. reflexivity.
  - vm_compute. reflexivity.
  - vm_compute. reflexivity.
  - intros p m Hp. by apply elem_of_nil in Hp.
  - destruct (Hbytes Spaced.format Spaced_format_content)
      as (t1 & tB & t2 & Hb & H1 & HB & H2).
    assert (l1 = [] /\ l2 = []) as [-> ->].
    { vm_compute in Hout. destruct l1 as [|x l1]; [|destruct l1; discriminate].
      simpl in Hout. injection Hout as <-. done. }
    apply fmap_nil_inv in H1. apply fmap_nil_inv in H2. subst t1 t2.
    exists tB. split; [|done]. rewrite Hb.
    unfold hclwrite.TokensBytes at 1 3. simpl.
    rewrite string_app_nil_l. clear.
    generalize (hclwrite.TokensBytes tB). intros s.
    induction s as [|c s IH]; [done|]. by rewrite string_app_cons, IH.
Defined.


Lemma output_sorted_by_name_witness :
  StronglySorted string_lt
    (demo_outline (Demo.cmd ["b.tfvars"; "a.tfvars"])).*1.
Proof.
  apply (output_sorted_by_name Demo.LoadModule Demo.ReadFile
           Demo.ParseConfig SpecModel.Attributes Demo.Create Demo.WriteTo
           (Demo.cmd ["b.tfvars"; "a.tfvars"]) "-"
           (spans (demo_outline (Demo.cmd ["b.tfvars"; "a.tfvars"])))
           "module" ["b.tfvars"; "a.tfvars"]).
  - vm_compute. reflexivity.
  - reflexivity.
Defined.

(** The error of [c.json] comes first; [w.tfvars] is still read, and its
    warning is shown after the error. *)
Lemma errors_abort_at_checkpoints_witness :
  demo_main (Demo.cmd ["c.json"; "w.tfvars"])
  = {| stdout := "";
       stderr :=
         showDiags
           ((Demo.LoadModule "module").2
            ++ mjoin (fileDiags Demo.ReadFile Demo.ParseConfig
                        <$> ["c.json"; "w.tfvars"]));
       status := 1;
       opened :=
         filter (fun p => HasSuffix p ".json" = false) ["c.json"; "w.tfvars"];
       created := []; wrote := None |}.
Proof.
  apply (errors_abort_at_checkpoints Demo.LoadModule Demo.ReadFile
           Demo.ParseConfig SpecModel.Attributes Demo.Create Demo.WriteTo
           (Demo.cmd ["c.json"; "w.tfvars"]) "module" ["c.json"; "w.tfvars"]).
  - reflexivity.
  - reflexivity.
  - vm_compute. reflexivity.
  - vm_compute. reflexivity.
Defined.

(** [c.json] exists and could be read; it is not. *)
Lemma json_file_rejected_witness :
  ("c.json" ∉ opened (demo_main (Demo.cmd ["c.json"; "w.tfvars"])))
  /\ status (demo_main (Demo.cmd ["c.json"; "w.tfvars"])) = 1
  /\ wrote (demo_main (Demo.cmd ["c.json"; "w.tfvars"])) = None.
Proof.
  destruct (json_file_rejected Demo.LoadModule Demo.ReadFile
              Demo.ParseConfig SpecModel.Attributes Demo.Create Demo.WriteTo
              (Demo.cmd ["c.json"; "w.tfvars"]) "module" ["c.json"; "w.tfvars"]
              "c.json")
    as (_ & _ & _ & _ & _ & Hopened & _ & Hstatus & Hwrote).
  - reflexivity.
  - reflexivity.
  - vm_compute. reflexivity.
  - constructor.
  - vm_compute. reflexivity.
  - exact (conj Hopened (conj Hstatus Hwrote)).
Defined.

(** [baz] is declared, and [a.tfvars] does not define it. *)
Lemma declared_but_undefined_omitted_witness :
  ("baz" ∉ (demo_outline (Demo.cmd ["a.tfvars"])).*1)
  /\ status (demo_main (Demo.cmd ["a.tfvars"])) = 0.
Proof.
  destruct (declared_but_undefined_omitted Demo.LoadModule Demo.ReadFile
              Demo.ParseConfig SpecModel.Attributes Demo.Create Demo.WriteTo
              (Demo.cmd ["a.tfvars"]) "module" ["a.tfvars"] "baz")
    as (Hout & _ & Hrun).
  - reflexivity.
  - reflexivity.
  - eexists. vm_compute. reflexivity.
  - intros p m Hp Hc. apply list_elem_of_singleton in Hp. subst p.
    vm_compute in Hc. injection Hc as <-. vm_compute. reflexivity.
  - split; [exact Hout|]. apply Hrun.
    + vm_compute. reflexivity.
    + left. reflexivity.
    + vm_compute. reflexivity.
Defined.

(** The parse of [w.tfvars] gives a warning: its [baz] is in the document
    and the run ends with status 0. *)
Lemma warnings_only_file_is_merged_witness :
  ("baz", Demo.attr "baz" "w") ∈ demo_outline (Demo.cmd ["a.tfvars"; "w.tfvars"])
  /\ status (demo_main (Demo.cmd ["a.tfvars"; "w.tfvars"])) = 0.
Proof.
  destruct (warnings_only_file_is_merged Demo.LoadModule Demo.ReadFile
              Demo.ParseConfig SpecModel.Attributes Demo.Create Demo.WriteTo
              (Demo.cmd ["a.tfvars"; "w.tfvars"]) "module" ["a.tfvars"]
              "w.tfvars" [] "W" [("baz", Demo.attr "baz" "w")]
              [Demo.deprecated "w.tfvars"])
    as (_ & _ & Hout & Hrun).
  - reflexivity.
  - reflexivity.
  - vm_compute. reflexivity.
  - vm_compute. reflexivity.
  - vm_compute. reflexivity.
  - repeat constructor.
  - split.
    + apply Hout.
      * eexists. vm_compute. reflexivity.
      * vm_compute. reflexivity.
      * intros q m Hq. by apply elem_of_nil in Hq.
    + apply Hrun.
      * repeat constructor.
      * left. reflexivity.
      * vm_compute. reflexivity.
Defined.

(** [baz] is in the document, and [b.tfvars] defines it. *)
Lemma defined_iff_some_file_defines_witness :
  "baz" ∈ (demo_outline (Demo.cmd ["a.tfvars"; "b.tfvars"])).*1
  <-> exists p m,
        p ∈ ["a.tfvars"; "b.tfvars"] /\ demo_contribution p = Some m
        /\ is_Some (m !! "baz").
Proof.
  apply (defined_iff_some_file_defines Demo.LoadModule Demo.ReadFile
           Demo.ParseConfig SpecModel.Attributes Demo.Create Demo.WriteTo
           (Demo.cmd ["a.tfvars"; "b.tfvars"]) "-"
           (spans (demo_outline (Demo.cmd ["a.tfvars"; "b.tfvars"])))
           "module" ["a.tfvars"; "b.tfvars"] "baz").
  - vm_compute. reflexivity.
  - reflexivity.
  - eexists. vm_compute. reflexivity.
Defined.

(** ** The further properties at work on the stand-ins *)

Lemma repeated_file_changes_nothing_witness :
  demo_outline (Demo.cmd ["a.tfvars"; "b.tfvars"; "b.tfvars"; "w.tfvars"])
  = demo_outline (Demo.cmd ["a.tfvars"; "b.tfvars"; "w.tfvars"]).
Proof.
  apply (repeated_file_changes_nothing Demo.LoadModule Demo.ReadFile
           Demo.ParseConfig SpecModel.Attributes
           (Demo.cmd ["a.tfvars"; "b.tfvars"; "b.tfvars"; "w.tfvars"])
           (Demo.cmd ["a.tfvars"; "b.tfvars"; "w.tfvars"])
           "module" ["a.tfvars"] "b.tfvars" ["w.tfvars"]).
  - reflexivity.
  - reflexivity.
Defined.

(** [a.tfvars] defines [foo] and [bar], [w.tfvars] defines [baz]. *)
Lemma neighbours_commute_unless_both_define_witness :
  demo_outline (Demo.cmd ["a.tfvars"; "w.tfvars"])
  = demo_outline (Demo.cmd ["w.tfvars"; "a.tfvars"]).
Proof.
  apply (neighbours_commute_unless_both_define Demo.LoadModule Demo.ReadFile
           Demo.ParseConfig SpecModel.Attributes
           (Demo.cmd ["a.tfvars"; "w.tfvars"])
           (Demo.cmd ["w.tfvars"; "a.tfvars"])
           "module" [] "a.tfvars" "w.tfvars" []).
  - reflexivity.
  - reflexivity.
  - intros k _. destruct (decide (k = "baz")) as [->|Hne].
    + left. vm_compute. reflexivity.
    + right.
      assert (demo_contribution "w.tfvars"
              = Some {[ "baz" := Demo.attr "baz" "w" ]}) as ->
        by (vm_compute; reflexivity).
      simpl. apply lookup_singleton_ne. congruence.
Defined.

(** A file argument that does not exist. *)
Lemma skipped_file_fails_run_witness :
  status (demo_main (Demo.cmd ["a.tfvars"; "missing.tfvars"])) = 1
  /\ created (demo_main (Demo.cmd ["a.tfvars"; "missing.tfvars"])) = []
  /\ wrote (demo_main (Demo.cmd ["a.tfvars"; "missing.tfvars"])) = None.
Proof.
  apply (skipped_file_fails_run Demo.LoadModule Demo.ReadFile
           Demo.ParseConfig SpecModel.Attributes Demo.Create Demo.WriteTo
           (Demo.cmd ["a.tfvars"; "missing.tfvars"]) "module"
           ["a.tfvars"; "missing.tfvars"] "missing.tfvars").
  - reflexivity.
  - reflexivity.
  - apply list_elem_of_further. constructor.
  - vm_compute. reflexivity.
Defined.

Lemma status_zero_iff_witness :
  status (demo_main (Demo.cmd ["a.tfvars"])) = 0
  <-> exists modDir varFilePaths,
        args (Demo.cmd ["a.tfvars"]) = modDir :: varFilePaths
        /\ anyError (diags (demo_finalState modDir varFilePaths)) = false
        /\ (outP (Demo.cmd ["a.tfvars"]) = "-"
            \/ Demo.Create (outP (Demo.cmd ["a.tfvars"])) = None)
        /\ Demo.WriteTo (outP (Demo.cmd ["a.tfvars"]))
             (spans (demo_outline (Demo.cmd ["a.tfvars"]))) = None.
Proof.
  apply (status_zero_iff Demo.LoadModule Demo.ReadFile
           Demo.ParseConfig SpecModel.Attributes Demo.Create Demo.WriteTo
           (Demo.cmd ["a.tfvars"])).
  reflexivity.
Defined.

(** The warning of [w.tfvars] is shown before the error of the output. *)
Lemma create_failure_ends_run_witness :
  main Demo.LoadModule Demo.ReadFile Demo.ParseConfig SpecModel.Attributes
    Faulty.Create Demo.WriteTo (Faulty.cmdTo "out.tfvars" ["w.tfvars"])
  = {| stdout := "";
       stderr :=
         showDiags (diags (demo_finalState "module" ["w.tfvars"]))
         +:+ showDiag (createDiag "out.tfvars" "permission denied");
       status := 1;
       opened := filter (fun p => HasSuffix p ".json" = false) ["w.tfvars"];
       created := ["out.tfvars"]; wrote := None |}.
Proof.
  apply (create_failure_ends_run Demo.LoadModule Demo.ReadFile
           Demo.ParseConfig SpecModel.Attributes Faulty.Create Demo.WriteTo
           (Faulty.cmdTo "out.tfvars" ["w.tfvars"]) "module" ["w.tfvars"]
           "permission denied").
  - reflexivity.
  - reflexivity.
  - vm_compute. reflexivity.
  - simpl. discriminate.
  - reflexivity.
Defined.

Lemma write_failure_ends_run_witness :
  status (main Demo.LoadModule Demo.ReadFile Demo.ParseConfig
            SpecModel.Attributes Demo.Create Faulty.WriteTo
            (Demo.cmd ["a.tfvars"])) = 1
  /\ stderr (main Demo.LoadModule Demo.ReadFile Demo.ParseConfig
               SpecModel.Attributes Demo.Create Faulty.WriteTo
               (Demo.cmd ["a.tfvars"]))
     = showDiags (diags (demo_finalState "module" ["a.tfvars"]))
       +:+ showDiag (writeDiag "-" "broken pipe")
  /\ wrote (main Demo.LoadModule Demo.ReadFile Demo.ParseConfig
              SpecModel.Attributes Demo.Create Faulty.WriteTo
              (Demo.cmd ["a.tfvars"]))
     = Some ("-", spans (demo_outline (Demo.cmd ["a.tfvars"]))).
Proof.
  apply (write_failure_ends_run Demo.LoadModule Demo.ReadFile
           Demo.ParseConfig SpecModel.Attributes Demo.Create Faulty.WriteTo
           (Demo.cmd ["a.tfvars"]) "module" ["a.tfvars"] "broken pipe").
  - reflexivity.
  - reflexivity.
  - vm_compute. reflexivity.
  - left. reflexivity.
  - reflexivity.
Defined.

Lemma files_read_in_argument_order_witness :
  opened (demo_main (Demo.cmd ["b.tfvars"; "c.json"; "a.tfvars"; "b.tfvars"]))
  = filter (fun p => HasSuffix p ".json" = false)
      ["b.tfvars"; "c.json"; "a.tfvars"; "b.tfvars"].
Proof.
  apply (files_read_in_argument_order Demo.LoadModule Demo.ReadFile
           Demo.ParseConfig SpecModel.Attributes Demo.Create Demo.WriteTo
           (Demo.cmd ["b.tfvars"; "c.json"; "a.tfvars"; "b.tfvars"]) "module").
  - reflexivity.
  - reflexivity.
  - vm_compute. reflexivity.
Defined.

Lemma no_file_arguments_witness :
  demo_main (Demo.cmd [])
  = {| stdout := ""; stderr := showDiags (Demo.LoadModule "module").2;
       status := 0; opened := [];
       created :=
         if String.eqb (outP (Demo.cmd [])) "-" then []
         else [outP (Demo.cmd [])];
       wrote := Some (outP (Demo.cmd []), []) |}.
Proof.
  apply (no_file_arguments Demo.LoadModule Demo.ReadFile
           Demo.ParseConfig SpecModel.Attributes Demo.Create Demo.WriteTo
           (Demo.cmd []) "module").
  - reflexivity.
  - reflexivity.
  - vm_compute. reflexivity.
  - left. reflexivity.
  - reflexivity.
Defined.

(** [foo] in the document is the definition of [a.tfvars]. *)
Lemma document_attributes_come_from_files_witness :
  exists p m,
    p ∈ ["a.tfvars"; "b.tfvars"] /\ demo_contribution p = Some m
    /\ m !! "foo" = Some (Demo.attr "foo" "a").
Proof.
  apply (document_attributes_come_from_files Demo.LoadModule Demo.ReadFile
           Demo.ParseConfig SpecModel.Attributes Demo.Create Demo.WriteTo
           (Demo.cmd ["a.tfvars"; "b.tfvars"]) "-"
           (spans (demo_outline (Demo.cmd ["a.tfvars"; "b.tfvars"])))
           "module" ["a.tfvars"; "b.tfvars"] "foo" (Demo.attr "foo" "a")).
  - vm_compute. reflexivity.
  - reflexivity.
  - vm_compute. do 2 apply list_elem_of_further. constructor.
Defined.

(** The names and the attributes in the reverse of the order chosen
    here. *)
Lemma range_order_does_not_show_witness :
  sort_Strings
    (collectWanted
       (reverse (map_to_list (tfconfig.Variables (Demo.LoadModule "module").1)).*1)).1
  = sort_Strings
      (collectWanted
         (map_to_list (tfconfig.Variables (Demo.LoadModule "module").1)).*1).1
  /\ (collectWanted
        (reverse (map_to_list (tfconfig.Variables (Demo.LoadModule "module").1)).*1)).2
     = (collectWanted
          (map_to_list (tfconfig.Variables (Demo.LoadModule "module").1)).*1).2
  /\ mergeAttrs {[ "foo"; "bar" ]} ∅
       (reverse (map_to_list
                   (SpecModel.Attributes (Demo.ParseConfig "B" "b.tfvars").1)))
     = mergeAttrs {[ "foo"; "bar" ]} ∅
         (map_to_list (SpecModel.Attributes (Demo.ParseConfig "B" "b.tfvars").1)).
Proof.
  apply (range_order_does_not_show
           (tfconfig.Variables (Demo.LoadModule "module").1)
           (reverse (map_to_list (tfconfig.Variables (Demo.LoadModule "module").1)).*1)
           (SpecModel.Attributes (Demo.ParseConfig "B" "b.tfvars").1)
           (reverse (map_to_list
                       (SpecModel.Attributes (Demo.ParseConfig "B" "b.tfvars").1)))).
  - apply reverse_Permutation.
  - apply reverse_Permutation.
Defined.
